(** * barista-bot-go: the SGF line parser and the board renderer

    A shallow embedding of [parser/parser.go]: the record parser
    ([ParseSGFLine] and its extraction helpers), the loader
    ([LoadProblems]) and the renderer ([RenderProblem], [sgfToIndex],
    [sanitizeFilename]).

    Go strings are byte sequences; they are modelled as lists of 8-bit
    characters.  The parts of the Go standard library the parser calls
    (UTF-8 decoding of [range] over a string, [regexp] with its
    leftmost-first matching) are modelled in the modules [Utf8] and
    [Regexp] below. *)

From Stdlib Require Import Ascii String.
From Stdlib Require Import List NArith ZArith Arith Bool Lia.
Import ListNotations.

Local Open Scope char_scope.

(** ** Strings *)

Definition str := list ascii.

(** A Go string literal. *)
Definition bytes (s : string) : str := list_ascii_of_string s.

Definition byteN (c : ascii) : N := N_of_ascii c.

Definition str_eqb (a b : str) : bool :=
  if list_eq_dec ascii_dec a b then true else false.

(** ** unicode/utf8: decoding one rune *)

Module Utf8.

Local Open Scope N_scope.

Definition RuneError : N := 0xFFFD.
Definition RuneSelf : N := 0x80.

(** Continuation bytes lie in [locb, hicb]. *)
Definition locb : N := 0x80.
Definition hicb : N := 0xBF.

(** The size of the encoding announced by a leading byte, 0 when the
    byte cannot start a multi-byte encoding (table [first]). *)
Definition size_of (b0 : N) : nat :=
  if (b0 <? 0xC2) || (0xF4 <? b0) then 0%nat
  else if b0 <? 0xE0 then 2%nat
  else if b0 <? 0xF0 then 3%nat
  else 4%nat.

(** The range accepted for the second byte (table [acceptRanges]). *)
Definition accept_lo (b0 : N) : N :=
  if b0 =? 0xE0 then 0xA0 else if b0 =? 0xF0 then 0x90 else locb.
Definition accept_hi (b0 : N) : N :=
  if b0 =? 0xED then 0x9F else if b0 =? 0xF4 then 0x8F else hicb.

Definition out_of (lo hi b : N) : bool := (b <? lo) || (hi <? b).

(** [DecodeRuneInString]: the rune at the head of [s] and its width in
    bytes.  An invalid or truncated encoding is [RuneError] of width 1. *)
Definition decodeRune (s : str) : N * nat :=
  match s with
  | [] => (RuneError, 0%nat)
  | c0 :: t =>
    let s0 := byteN c0 in
    if s0 <? RuneSelf then (s0, 1%nat)
    else
      match size_of s0 with
      | O => (RuneError, 1%nat)
      | sz =>
        match t with
        | [] => (RuneError, 1%nat)
        | c1 :: t1 =>
          let s1 := byteN c1 in
          if out_of (accept_lo s0) (accept_hi s0) s1 then (RuneError, 1%nat)
          else if (sz <=? 2)%nat then
            (N.lor (N.shiftl (N.land s0 0x1F) 6) (N.land s1 0x3F), 2%nat)
          else
            match t1 with
            | [] => (RuneError, 1%nat)
            | c2 :: t2 =>
              let s2 := byteN c2 in
              if out_of locb hicb s2 then (RuneError, 1%nat)
              else if (sz <=? 3)%nat then
                (N.lor (N.lor (N.shiftl (N.land s0 0x0F) 12)
                              (N.shiftl (N.land s1 0x3F) 6))
                       (N.land s2 0x3F), 3%nat)
              else
                match t2 with
                | [] => (RuneError, 1%nat)
                | c3 :: _ =>
                  let s3 := byteN c3 in
                  if out_of locb hicb s3 then (RuneError, 1%nat)
                  else
                    (N.lor (N.lor (N.lor (N.shiftl (N.land s0 0x07) 18)
                                         (N.shiftl (N.land s1 0x3F) 12))
                                  (N.shiftl (N.land s2 0x3F) 6))
                           (N.land s3 0x3F), 4%nat)
                end
            end
        end
      end
  end.

(** The runes of a string, as [for _, r := range s] yields them. *)
Fixpoint runes_from (skip : nat) (s : str) : list N :=
  match s with
  | [] => []
  | _ :: t =>
    match skip with
    | S j => runes_from j t
    | O => let '(r, w) := decodeRune s in r :: runes_from (w - 1) t
    end
  end.

Definition runes (s : str) : list N := runes_from 0 s.

End Utf8.

(** ** regexp: a backtracking matcher with leftmost-first preference *)

Module Regexp.

Inductive regex : Type :=
| Lit (c : ascii)               (* a literal character *)
| Range (lo hi : ascii)         (* [lo-hi] *)
| Dot                           (* any character but newline *)
| Cat (r1 r2 : regex)           (* r1 r2 *)
| Plus (r : regex)              (* r+, greedy *)
| LazyStar (r : regex)          (* r*?, non-greedy *)
| Group (i : nat) (r : regex).  (* the i-th capturing group *)

(** Capture groups recorded so far, most recent first. *)
Definition caps := list (nat * str).
Definition outcome := option (caps * str).
Definition cont := caps -> str -> outcome.

(** One input step: the rune at the head of [s] must satisfy [p]. *)
Definition atom (p : N -> bool) (c : caps) (s : str) (k : cont) : outcome :=
  match s with
  | [] => None
  | _ :: _ =>
    let '(r, w) := Utf8.decodeRune s in
    if p r then k c (skipn w s) else None
  end.

(** [r+]: after each iteration that consumed input, another iteration is
    preferred to leaving the loop. *)
Fixpoint plus_loop (body : caps -> str -> cont -> outcome)
         (n : nat) (c : caps) (s : str) (k : cont) : outcome :=
  body c s (fun c' s' =>
    match n with
    | O => k c' s'
    | S n' =>
      if (length s' <? length s)%nat then
        match plus_loop body n' c' s' k with
        | Some x => Some x
        | None => k c' s'
        end
      else k c' s'
    end).

(** [r*?]: leaving the loop is preferred to another iteration. *)
Fixpoint lazy_loop (body : caps -> str -> cont -> outcome)
         (n : nat) (c : caps) (s : str) (k : cont) : outcome :=
  match k c s with
  | Some x => Some x
  | None =>
    match n with
    | O => None
    | S n' =>
      body c s (fun c' s' =>
        if (length s' <? length s)%nat then lazy_loop body n' c' s' k
        else None)
    end
  end.

Fixpoint m (r : regex) (c : caps) (s : str) (k : cont) {struct r} : outcome :=
  match r with
  | Lit a => atom (fun x => N.eqb x (byteN a)) c s k
  | Range lo hi =>
    atom (fun x => N.leb (byteN lo) x && N.leb x (byteN hi)) c s k
  | Dot => atom (fun x => negb (N.eqb x 10)) c s k
  | Cat r1 r2 => m r1 c s (fun c' s' => m r2 c' s' k)
  | Plus r1 => plus_loop (m r1) (length s) c s k
  | LazyStar r1 => lazy_loop (m r1) (length s) c s k
  | Group i r1 =>
    m r1 c s (fun c' s' => k ((i, firstn (length s - length s') s) :: c') s')
  end.

(** A match anchored at the head of [s]. *)
Definition match_here (re : regex) (s : str) : outcome :=
  m re [] s (fun c s' => Some (c, s')).

(** The leftmost match: start positions are tried from left to right,
    advancing by one rune.  The result is the suffix at which the match
    starts, its captures and the suffix left after it. *)
Fixpoint search (re : regex) (skip : nat) (s : str) : option (str * caps * str) :=
  match skip with
  | S j => match s with [] => None | _ :: t => search re j t end
  | O =>
    match match_here re s with
    | Some (c, rest) => Some (s, c, rest)
    | None =>
      match s with
      | [] => None
      | _ :: t => search re (snd (Utf8.decodeRune s) - 1) t
      end
    end
  end.

Fixpoint num_groups (r : regex) : nat :=
  match r with
  | Lit _ | Range _ _ | Dot => 0
  | Cat r1 r2 => Nat.max (num_groups r1) (num_groups r2)
  | Plus r1 | LazyStar r1 => num_groups r1
  | Group i r1 => Nat.max i (num_groups r1)
  end.

Fixpoint lookup (i : nat) (c : caps) : str :=
  match c with
  | [] => []
  | (j, t) :: c' => if (i =? j)%nat then t else lookup i c'
  end.

(** The slice a match hands back: the whole match, then each group
    (empty when the group took no part). *)
Definition submatches (re : regex) (s0 : str) (c : caps) (rest : str) : list str :=
  firstn (length s0 - length rest) s0
  :: map (fun i => lookup i c) (seq 1 (num_groups re)).

Definition FindStringSubmatch (re : regex) (s : str) : option (list str) :=
  match search re 0 s with
  | Some (s0, c, rest) => Some (submatches re s0 c rest)
  | None => None
  end.

(** Successive non-overlapping matches.  [prev] is the length of the
    suffix at which the previous match ended; an empty match right
    after a previous match is dropped, and the scan then moves on by
    one rune. *)
Fixpoint all_matches (re : regex) (n : nat) (s : str) (prev : option nat)
  : list (list str) :=
  match n with
  | O => []
  | S n' =>
    match search re 0 s with
    | None => []
    | Some (s0, c, rest) =>
      if (length rest =? length s)%nat then
        let tail :=
          match s with
          | [] => []
          | _ :: _ =>
            all_matches re n' (skipn (snd (Utf8.decodeRune s)) s)
                        (Some (length rest))
          end in
        match prev with
        | Some e =>
          if (e =? length s0)%nat then tail
          else submatches re s0 c rest :: tail
        | None => submatches re s0 c rest :: tail
        end
      else
        submatches re s0 c rest :: all_matches re n' rest (Some (length rest))
    end
  end.

(** [FindAllStringSubmatch(s, -1)]: a negative limit stands for
    [len(s) + 1] matches. *)
Definition FindAllStringSubmatch (re : regex) (s : str) : list (list str) :=
  all_matches re (S (length s)) s None.

End Regexp.

Import Regexp.

(** ** The parser's patterns *)

Definition coordGroup : regex :=
  Cat (Lit "[") (Cat (Range "a" "s") (Cat (Range "a" "s") (Lit "]"))).

(** [AB((?:\[[a-s]{2}\])+)] *)
Definition blackRunRe : regex :=
  Cat (Lit "A") (Cat (Lit "B") (Group 1 (Plus coordGroup))).

(** [AW((?:\[[a-s]{2}\])+)] *)
Definition whiteRunRe : regex :=
  Cat (Lit "A") (Cat (Lit "W") (Group 1 (Plus coordGroup))).

(** [\[([a-s]{2})\]] *)
Definition coordRe : regex :=
  Cat (Lit "[") (Cat (Group 1 (Cat (Range "a" "s") (Range "a" "s"))) (Lit "]")).

(** [C\[(.*?)\]] *)
Definition commentRe : regex :=
  Cat (Lit "C") (Cat (Lit "[") (Cat (Group 1 (LazyStar Dot)) (Lit "]"))).

(** The pattern of a run with marker [A y]. *)
Definition runRe (y : ascii) : regex :=
  Cat (Lit "A") (Cat (Lit y) (Group 1 (Plus coordGroup))).

(** ** The parser *)

Record GoProblem : Type := mkGoProblem {
  Name : str;
  Black : list str;
  White : list str
}.

Record GoParser : Type := mkGoParser {
  Problems : list GoProblem
}.

Inductive error : Type :=
| ErrNoProperties                 (* "no SGF properties found in line" *)
| ErrInvalidCoord (s : str)       (* "invalid coord %q" *)
| ErrCoordOutOfRange (s : str)    (* "coord out of range %q" *)
| ErrIO (msg : str).              (* an error of the operating system *)

Inductive result (A : Type) : Type :=
| Ok (a : A)
| Err (e : error).
Arguments Ok {A} a.
Arguments Err {A} e.

(** m[1] of a submatch slice. *)
Definition sub1 (mt : list str) : str := nth 1 mt [].

Definition extractCoords (runRe : regex) (line : str) : list str :=
  match FindStringSubmatch runRe line with
  | Some mt => map sub1 (FindAllStringSubmatch coordRe (sub1 mt))
  | None => []
  end.

Definition extractComment (re : regex) (line : str) : str :=
  match FindStringSubmatch re line with
  | Some mt => sub1 mt
  | None => []
  end.

Definition ParseSGFLine (line : str) : result GoProblem :=
  let black := extractCoords blackRunRe line in
  let white := extractCoords whiteRunRe line in
  let comment := extractComment commentRe line in
  if (length black =? 0)%nat && (length white =? 0)%nat && str_eqb comment []
  then Err ErrNoProperties
  else Ok {| Name := comment; Black := black; White := white |}.

(** ** The loader *)

(** What the operating system and [bufio.Scanner] hand to the loader:
    either the file cannot be opened, or the scanner yields its lines
    (line terminators stripped) and then stops, at end of file or at a
    read error, which [scanner.Err()] reports. *)
Inductive source : Type :=
| OpenFails (msg : str)
| Opened (lines : list str) (scanErr : option str).

(** One entry of the process log: "skipping line: %s: %v". *)
Record logEntry : Type := mkLog { logLine : str; logErr : error }.

(** The state the loader acts on: the parser and the log. *)
Record loadState : Type := mkLoad {
  parser : GoParser;
  logged : list logEntry
}.

(** The body of [for scanner.Scan()]. *)
Fixpoint scanLoop (lines : list str) (st : loadState) : loadState :=
  match lines with
  | [] => st
  | line :: more =>
    match ParseSGFLine line with
    | Err e =>
      scanLoop more
        {| parser := parser st;
           logged := logged st ++ [mkLog line e] |}
    | Ok prob =>
      scanLoop more
        {| parser := {| Problems := Problems (parser st) ++ [prob] |};
           logged := logged st |}
    end
  end.

Definition LoadProblems (disk : str -> source) (fileLocation : str)
           (st : loadState) : loadState * option error :=
  match disk fileLocation with
  | OpenFails msg => (st, Some (ErrIO msg))
  | Opened lines scanErr => (scanLoop lines st, option_map ErrIO scanErr)
  end.

(** ** The renderer *)

(** [s[0] - 'a'] on bytes: subtraction modulo 256. *)
Definition byte_sub (a b : ascii) : Z :=
  ((Z.of_N (byteN a) - Z.of_N (byteN b)) mod 256)%Z.

Definition sgfToIndex (s : str) : result (Z * Z) :=
  if negb (length s =? 2)%nat then Err (ErrInvalidCoord s)
  else
    let x := byte_sub (nth 0 s zero) "a" in
    let y := byte_sub (nth 1 s zero) "a" in
    if ((x <? 0) || (x >=? 19) || (y <? 0) || (y >=? 19))%Z
    then Err (ErrCoordOutOfRange s)
    else Ok (x, y).

(** What one rune of the title contributes to the file name. *)
Definition sanitizeRune (r : N) : str :=
  if (r =? 32)%N then ["_"]
  else if ((65 <=? r) && (r <=? 90) || (97 <=? r) && (r <=? 122)
           || (48 <=? r) && (r <=? 57) || (r =? 95) || (r =? 45))%N
       then [ascii_of_N r]
       else [].

Definition sanitizeFilename (name : str) : str :=
  let out := fold_left (fun out r => out ++ sanitizeRune r) (Utf8.runes name) [] in
  if str_eqb out [] then bytes "problem" else out.

(** The drawing context records what was drawn.  Pixel positions are
    derived from grid indices by floating-point arithmetic that no
    property below depends on; the record keeps the indices. *)
Inductive Color : Type := Wood | ColorBlack | ColorWhite.

Inductive drawOp : Type :=
| Clear (c : Color)
| GridLine (i : Z)                    (* the i-th vertical and horizontal line *)
| Stroke
| StarPoint (ix iy : Z)
| Stone (x y : Z) (fill : Color)
| Label (text : str).

Record Context : Type := mkContext {
  width : Z;
  marginOf : Z;
  drawn : list drawOp
}.

Definition draw (dc : Context) (ops : list drawOp) : Context :=
  {| width := width dc; marginOf := marginOf dc; drawn := drawn dc ++ ops |}.

Definition drawStone (dc : Context) (coord : str) (fill : Color) : result Context :=
  match sgfToIndex coord with
  | Err e => Err e
  | Ok (x, y) => Ok (draw dc [Stone x y fill])
  end.

(** Placing the stones of one colour: the loop over the coordinates
    stops at the first one [drawStone] rejects and hands its error back. *)
Fixpoint placeStones (dc : Context) (coords : list str) (fill : Color) : result Context :=
  match coords with
  | [] => Ok dc
  | c :: more =>
    match drawStone dc c fill with
    | Err e => Err e
    | Ok dc' => placeStones dc' more fill
    end
  end.

(** What a path of the file system holds. *)
Inductive file : Type :=
| PNG (img : Context)                 (* the complete encoding of an image *)
| Truncated (img : Context) (n : nat) (* the first [n] bytes of an encoding *)
| Data (content : str).

Definition filesystem := str -> option file.

Definition write (fs : filesystem) (path : str) (f : file) : filesystem :=
  fun q => if str_eqb q path then Some f else fs q.

(** How the environment lets a save end. *)
Inductive saveFault : Type :=
| NoFault
| CreateFails (msg : str)
| EncodeFails (msg : str) (written : nat).

(** [dc.SavePNG(path)] of fogleman/gg: [os.Create(path)], which
    truncates the file, then [png.Encode] into it. *)
Definition SavePNG (fault : saveFault) (dc : Context) (path : str)
           (fs : filesystem) : filesystem * option error :=
  match fault with
  | CreateFails msg => (fs, Some (ErrIO msg))
  | EncodeFails msg n => (write fs path (Truncated dc n), Some (ErrIO msg))
  | NoFault => (write fs path (PNG dc), None)
  end.

Section Renderer.

(** [filepath.Join] of the platform. *)
Variable Join : str -> str -> str.

Definition outPathOf (p : GoProblem) (outputDir : str) : str :=
  Join outputDir (sanitizeFilename (Name p) ++ bytes ".png").

Definition RenderProblem (p : GoProblem) (outputDir : str)
           (boardsizePx marginPx : Z) (fault : saveFault) (fs : filesystem)
  : filesystem * result str :=
  let dc := {| width := boardsizePx; marginOf := marginPx; drawn := [Clear Wood] |} in
  (* grid *)
  let dc := draw dc (map GridLine (map Z.of_nat (seq 0 19)) ++ [Stroke]) in
  (* star points *)
  let dc := draw dc (flat_map (fun ix => map (StarPoint ix) [3; 9; 15]%Z) [3; 9; 15]%Z) in
  (* stones *)
  match placeStones dc (Black p) ColorBlack with
  | Err e => (fs, Err e)
  | Ok dc =>
    match placeStones dc (White p) ColorWhite with
    | Err e => (fs, Err e)
    | Ok dc =>
      let dc := draw dc [Label (Name p)] in
      let outPath := outPathOf p outputDir in
      match SavePNG fault dc outPath fs with
      | (fs', Some e) => (fs', Err e)
      | (fs', None) => (fs', Ok outPath)
      end
    end
  end.

End Renderer.

(** A plain model of [filepath.Join] for directories that need no
    cleaning, used in the examples. *)
Definition joinSlash (dir file : str) : str := dir ++ "/" :: file.

(** ** path/filepath: the last element of a path (Unix) *)

Definition isSlash (c : ascii) : bool := Ascii.eqb c "/".

Fixpoint dropSlashes (s : str) : str :=
  match s with
  | [] => []
  | c :: t => if isSlash c then dropSlashes t else s
  end.

Fixpoint untilSlash (s : str) : str :=
  match s with
  | [] => []
  | c :: t => if isSlash c then [] else c :: untilSlash t
  end.

(** [filepath.Base]: trailing slashes are stripped, then what follows
    the last slash is returned; an empty path gives ".", a path of
    slashes only gives "/".  The path is scanned from its end. *)
Definition Base (path : str) : str :=
  if str_eqb path [] then bytes "."
  else
    let last := rev (untilSlash (dropSlashes (rev path))) in
    if str_eqb last [] then bytes "/" else last.

(** ** strings.HasPrefix *)

Fixpoint HasPrefix (s prefix : str) : bool :=
  match prefix with
  | [] => true
  | p :: ps =>
    match s with
    | [] => false
    | c :: cs => Ascii.eqb c p && HasPrefix cs ps
    end
  end.

(** ** config/config.go *)

Module Config.

Record Config : Type := mkConfig {
  BotToken : str;
  DatabaseUrl : str
}.

(** The variables of the process environment. *)
Definition environ := str -> option str.

Definition getEnv (env : environ) (key fallback : str) : str :=
  match env key with
  | Some value => value
  | None => fallback
  end.

(** [godotenv.Load] is given by what it does to the environment and
    the error it returns.  The result is the environment after the
    call, whether the warning was logged, and the configuration; the
    error returned is always nil. *)
Definition LoadConfig (dotenv : environ -> environ * option str) (env : environ)
  : environ * bool * (Config * option error) :=
  let '(env', err) := dotenv env in
  let warned := match err with Some _ => true | None => false end in
  let config :=
    {| BotToken := getEnv env' (bytes "DISCORD_TOKEN") [];
       DatabaseUrl := getEnv env' (bytes "DATABASE_URL") [] |} in
  (env', warned, (config, None)).

End Config.

(** ** repo: the daily settings of a guild *)

Module Repo.

Record DailyConfig : Type := mkDailyConfig {
  GuildID : str;
  ChannelID : str;
  TimeHHMM : str
}.

(** The table [daily_config]: [guild_id] is its primary key, so it
    holds at most one row (channel_id, time_hhmm) per guild. *)
Definition table := str -> option (str * str).

Definition noRows : table := fun _ => None.

Inductive dbError : Type :=
| ErrNoRows                                  (* sql.ErrNoRows *)
| DriverError (msg : str)                    (* any other error of the driver *)
| Wrapped (prefix : str) (e : dbError).      (* fmt.Errorf("prefix: %w", e) *)

Inductive dbResult (A : Type) : Type :=
| Found (a : A)
| Failure (e : dbError).
Arguments Found {A} a.
Arguments Failure {A} e.

(** INSERT ... ON CONFLICT(guild_id) DO UPDATE: the row of the guild is
    created or replaced. *)
Definition upsert (t : table) (guildID channelID timeHHMM : str) : table :=
  fun g => if str_eqb g guildID then Some (channelID, timeHHMM) else t g.

(** [fault] is the error of the driver, if the statement fails; a
    failed statement changes nothing. *)
Definition SetConfig (fault : option str) (guildID channelID timeHHMM : str)
           (t : table) : table * option dbError :=
  match fault with
  | Some msg => (t, Some (Wrapped (bytes "failed to set config") (DriverError msg)))
  | None => (upsert t guildID channelID timeHHMM, None)
  end.

(** SELECT ... WHERE guild_id = ?, scanned into a [DailyConfig]: no
    row is [sql.ErrNoRows], handed back as it is; any other error is
    wrapped. *)
Definition GetConfig (fault : option str) (guildID : str) (t : table)
  : dbResult DailyConfig :=
  match fault with
  | Some msg => Failure (Wrapped (bytes "failed to get config") (DriverError msg))
  | None =>
    match t guildID with
    | None => Failure ErrNoRows
    | Some (channelID, timeHHMM) =>
      Found {| GuildID := guildID; ChannelID := channelID; TimeHHMM := timeHHMM |}
    end
  end.

End Repo.

(** ** main.go: the command handlers *)

Module Bot.

Record Role : Type := mkRole { RoleName : str; RoleID : str }.

Record Member : Type := mkMember {
  Username : str;
  GlobalName : str;
  Roles : list str
}.

Local Unset Elimination Schemes.
Inductive component : Type :=
| ActionsRow (components : list component)
| TextInput (customID value : str)
| OtherComponent.
Local Set Elimination Schemes.

(** The data of an interaction, by its type. *)
Inductive interactionData : Type :=
| ApplicationCommand (name : str)
| ModalSubmit (customID : str) (components : list component)
| OtherInteraction.

Record Interaction : Type := mkInteraction {
  Data : interactionData;
  GuildID : str;
  ChannelID : str;
  InGuild : option Member        (* i.Member: nil outside a guild *)
}.

(** An error, as it appears in a message. *)
Inductive failure : Type :=
| ParserFailure (e : error)
| DbFailure (e : Repo.dbError)
| ApiFailure (msg : str).

(** A message: a plain string, or a prefix followed by the text of an
    error. *)
Inductive text : Type :=
| Plain (s : str)
| WithError (prefix : str) (e : failure).

Inductive response : Type :=
| Message (content : text) (ephemeral : bool)
| Modal (customID title : str) (timeValue channelValue : str).

(** What a handler does to the outside world, in order. *)
Inductive event : Type :=
| Responded (r : response)                        (* a call of InteractionRespond *)
| Logged (line : text)
| ThreadStarted (thread channel name : str)       (* a thread was created *)
| FileSent (thread name : str) (content : file)   (* a file was sent *)
| CommandCreated (appID guildID name : str).      (* a command was registered *)

(** What Discord, the clock and the operating system answer. *)
Record Env : Type := mkEnv {
  now : Z;                                     (* time.Now().UTC().Unix() *)
  pathJoin : str -> str -> str;                (* filepath.Join *)
  channelOf : str -> option bool;              (* s.Channel: is it a thread *)
  threadStart : str -> str -> option str;      (* s.ThreadStart: the thread *)
  guildRoles : str -> option (list Role);      (* s.Guild: its roles *)
  respondErr : response -> option str;         (* the error of InteractionRespond *)
  saveFaultOf : saveFault;
  openErr : option str;                        (* the error of os.Open *)
  sendErr : option str;                        (* the error of ChannelFileSend *)
  dbFault : option str;                        (* the error of the database *)
  createErr : str -> option str                (* the error of ApplicationCommandCreate *)
}.

Record World : Type := mkWorld {
  trace : list event;
  db : Repo.table;
  files : filesystem
}.

(** How a handler ends. *)
Inductive status : Type := Returned | Panicked.

Definition emit (e : event) (w : World) : World :=
  {| trace := trace w ++ [e]; db := db w; files := files w |}.

Definition respond (msg : text) (w : World) : World :=
  emit (Responded (Message msg false)) w.

Definition respondError (msg : text) (w : World) : World :=
  respond msg (emit (Logged msg) w).

(** The index of the problem of the day: integer division and
    remainder truncate towards zero. *)
Definition dailyIndex (unix : Z) (count : nat) : Z :=
  Z.rem (Z.quot unix 86400) (Z.of_nat count).

(** [problems[idx]]: an index out of range panics. *)
Definition index {A : Type} (l : list A) (idx : Z) : option A :=
  if (idx <? 0)%Z then None else nth_error l (Z.to_nat idx).

Definition handleDaily (env : Env) (i : Interaction) (pg : GoParser) (w : World)
  : World * status :=
  match channelOf env (ChannelID i) with
  | None | Some true =>
    (respond (Plain (bytes "Please use this command in a main channel.")) w, Returned)
  | Some false =>
    match InGuild i with
    | None => (w, Panicked)
    | Some member =>
      let threadName := Username member ++ bytes "'s Daily Thread" in
      match threadStart env (ChannelID i) threadName with
      | None => (respondError (Plain (bytes "could not create thread")) w, Returned)
      | Some thread =>
        let w := emit (ThreadStarted thread (ChannelID i) threadName) w in
        let w := respond (Plain (bytes "Daily practice thread created!")) w in
        let problems := Problems pg in
        let count := length problems in
        if (count =? 0)%nat then
          (respondError (Plain (bytes "no problems available")) w, Returned)
        else
          match index problems (dailyIndex (now env) count) with
          | None => (w, Panicked)
          | Some prob =>
            match RenderProblem (pathJoin env) prob (bytes "./out") 800 40
                                (saveFaultOf env) (files w) with
            | (fs', Err e) =>
              (respondError (WithError (bytes "failed to render problem: ") (ParserFailure e))
                 {| trace := trace w; db := db w; files := fs' |}, Returned)
            | (fs', Ok imgPath) =>
              let w := {| trace := trace w; db := db w; files := fs' |} in
              match openErr env, fs' imgPath with
              | Some msg, _ =>
                (respondError (WithError (bytes "failed to open image: ")
                                         (ParserFailure (ErrIO msg))) w, Returned)
              | None, None =>
                (respondError (WithError (bytes "failed to open image: ")
                                         (ParserFailure (ErrIO (bytes "no such file or directory")))) w,
                 Returned)
              | None, Some content =>
                match sendErr env with
                | Some msg =>
                  (respondError (WithError (bytes "failed to send image: ") (ApiFailure msg)) w,
                   Returned)
                | None => (emit (FileSent thread (Base imgPath) content) w, Returned)
                end
              end
            end
          end
      end
    end
  end.

(** The role loop: the ID of the last role named "Staff", empty when
    there is none. *)
Definition staffIDOf (roles : list Role) : str :=
  fold_left (fun staffID role =>
               if str_eqb (RoleName role) (bytes "Staff") then RoleID role else staffID)
            roles [].

(** The member loop: some role of the member is the staff role. *)
Definition hasRole (staffID : str) (memberRoles : list str) : bool :=
  fold_left (fun isStaff id => if str_eqb id staffID then true else isStaff)
            memberRoles false.

(** [%v] of a slice of strings. *)
Definition showList (l : list str) : str :=
  "[" :: concat (match l with
                 | [] => []
                 | x :: xs => x :: map (fun y => " " :: y) xs
                 end) ++ ["]"].

Definition handleEditDaily (env : Env) (i : Interaction) (w : World) : World * status :=
  let found := Repo.GetConfig (dbFault env) (GuildID i) (db w) in
  match found with
  | Repo.Failure (Repo.Wrapped p e) =>
    (respondError (WithError (bytes "error occured retreiving settings from db: ")
                             (DbFailure (Repo.Wrapped p e))) w, Returned)
  | Repo.Failure (Repo.DriverError msg) =>
    (respondError (WithError (bytes "error occured retreiving settings from db: ")
                             (DbFailure (Repo.DriverError msg))) w, Returned)
  | _ =>
    let config :=
      match found with
      | Repo.Found c => c
      | Repo.Failure _ => {| Repo.GuildID := []; Repo.ChannelID := []; Repo.TimeHHMM := [] |}
      end in
    match guildRoles env (GuildID i) with
    | None =>
      (respondError
         (Plain (bytes "an internal server error occured getting the guild information")) w,
       Returned)
    | Some roles =>
      let staffID := staffIDOf roles in
      match InGuild i with
      | None => (w, Panicked)
      | Some member =>
        let w := emit (Logged (Plain (GlobalName member ++ bytes " roles are: "
                                        ++ showList (Roles member)))) w in
        let isStaff := hasRole staffID (Roles member) in
        if negb isStaff then
          (respondError (Plain (bytes "not a staff memeber")) w, Returned)
        else
          let modal := Modal (bytes "edit_daily") (bytes "Edit Daily")
                             (Repo.TimeHHMM config) (Repo.ChannelID config) in
          let w := emit (Responded modal) w in
          match respondErr env modal with
          | Some msg =>
            let w := emit (Logged (WithError (bytes "error is: ") (ApiFailure msg))) w in
            (respondError (Plain (bytes "an error occured with submitting your changes")) w,
             Returned)
          | None => (w, Returned)
          end
      end
    end
  end.

(** The value of the text input that is the first component of the
    [n]-th component, an actions row; a missing component or one of
    another kind panics. *)
Definition textValue (components : list component) (n : nat) : option str :=
  match nth_error components n with
  | Some (ActionsRow (TextInput _ value :: _)) => Some value
  | _ => None
  end.

Definition handleModalSubmit (env : Env) (i : Interaction) (w : World) : World * status :=
  let saving := Message (Plain (bytes "Saving updated time")) true in
  let w := emit (Responded saving) w in
  let w :=
    match respondErr env saving with
    | Some _ => respondError (Plain (bytes "error saving updated time")) w
    | None => w
    end in
  match Data i with
  | ModalSubmit customID components =>
    if negb (HasPrefix customID (bytes "edit_daily")) then (w, Returned)
    else
      match textValue components 0 with
      | None => (w, Panicked)
      | Some daily_time =>
        match textValue components 1 with
        | None => (w, Panicked)
        | Some channel_id =>
          let w := emit (Logged (Plain (bytes "the submitted updated time is " ++ daily_time))) w in
          let w := emit (Logged (Plain (bytes "the channel id is " ++ channel_id))) w in
          match Repo.SetConfig (dbFault env) (GuildID i) channel_id daily_time (db w) with
          | (t, Some e) =>
            let w := {| trace := trace w; db := t; files := files w |} in
            let w := emit (Logged (WithError (bytes "error occured updating config: ")
                                             (DbFailure e))) w in
            (respondError (Plain (bytes "error occured updating config")) w, Returned)
          | (t, None) => ({| trace := trace w; db := t; files := files w |}, Returned)
          end
        end
      end
  | _ => (w, Panicked)       (* ModalSubmitData on another kind of interaction *)
  end.

Definition commandHandler (pg : GoParser) (env : Env) (i : Interaction) (w : World)
  : World * status :=
  match Data i with
  | ApplicationCommand name =>
    if str_eqb name (bytes "test") then
      (respond (Plain (bytes "Test response")) w, Returned)
    else if str_eqb name (bytes "daily") then handleDaily env i pg w
    else if str_eqb name (bytes "edit_daily") then handleEditDaily env i w
    else (emit (Logged (Plain (bytes "unknown command: " ++ name))) w, Returned)
  | ModalSubmit _ _ => handleModalSubmit env i w
  | OtherInteraction => (w, Returned)
  end.

Definition commandNames : list str :=
  [bytes "test"; bytes "daily"; bytes "edit_daily"].

Definition registerCommands (env : Env) (appID guildID : str) (w : World) : World :=
  fold_left
    (fun w name =>
       match createErr env name with
       | Some msg =>
         emit (Logged (WithError (bytes "could not create command '" ++ name ++ bytes "': ")
                                 (ApiFailure msg))) w
       | None => emit (CommandCreated appID guildID name) w
       end)
    commandNames w.

End Bot.


(** * Specification vocabulary *)

(** ** The extraction rules in the words of the specification *)

Module Scanner.

(** [b] is the character [a]. *)
Definition isChar (a b : ascii) : bool := Ascii.eqb b a.

(** [b] lies between [lo] and [hi]. *)
Definition within (lo hi b : ascii) : bool :=
  (N.leb (byteN lo) (byteN b) && N.leb (byteN b) (byteN hi))%bool.

(** No character of [s] is [a]. *)
Definition noChar (a : ascii) (s : str) : bool :=
  forallb (fun b => negb (isChar a b)) s.

Definition newline : ascii := ascii_of_nat 10.

(** A coordinate character: one of the first 19 lower-case letters. *)
Definition inAS (c : ascii) : bool := within "a" "s" c.

(** A coordinate: two coordinate characters. *)
Definition isCoord (s : str) : bool :=
  match s with
  | [a; b] => inAS a && inAS b
  | _ => false
  end.

Definition groupAt (o a b cl : ascii) : bool :=
  isChar "[" o && inAS a && inAS b && isChar "]" cl.

(** A bracketed coordinate group at the head of [s]. *)
Definition headGroup (s : str) : option (str * str) :=
  match s with
  | o :: a :: b :: cl :: t => if groupAt o a b cl then Some ([a; b], t) else None
  | _ => None
  end.

(** The coordinates of the bracket groups that follow one another at
    the head of [s], and what is left after them. *)
Fixpoint takeGroups (s : str) : list str :=
  match s with
  | o :: a :: b :: cl :: t => if groupAt o a b cl then [a; b] :: takeGroups t else []
  | _ => []
  end.

Fixpoint skipGroups (s : str) : str :=
  match s with
  | o :: a :: b :: cl :: t => if groupAt o a b cl then skipGroups t else s
  | _ => s
  end.

(** The text of a run of bracket groups. *)
Definition bracket (c : str) : str := "[" :: c ++ ["]"].
Definition groupsText (cs : list str) : str := flat_map bracket cs.

(** The run at the head of [s]: the marker [A y] and the bracket groups
    right after it. *)
Definition runAt (y : ascii) (s : str) : list str :=
  match s with
  | a :: b :: u => if isChar "A" a && isChar y b then takeGroups u else []
  | _ => []
  end.

(** The first run of the line. *)
Fixpoint firstRun (y : ascii) (s : str) : list str :=
  match runAt y s with
  | [] => match s with [] => [] | _ :: t => firstRun y t end
  | cs => cs
  end.

(** The span up to the first closing bracket, if no newline comes
    before it, and what follows the bracket. *)
Fixpoint spanTo (s : str) : option (str * str) :=
  match s with
  | [] => None
  | b :: t =>
    if isChar "]" b then Some ([], t)
    else if isChar newline b then None
    else match spanTo t with
         | Some (x, r) => Some (b :: x, r)
         | None => None
         end
  end.

(** The caption at the head of [s]: the marker [C] and a bracketed span. *)
Definition captionAt (s : str) : option (str * str) :=
  match s with
  | a :: b :: u => if isChar "C" a && isChar "[" b then spanTo u else None
  | _ => None
  end.

(** None of the first [n] positions of [line] starts a run. *)
Fixpoint noRunBefore (y : ascii) (n : nat) (line : str) : bool :=
  match n with
  | O => true
  | S n' =>
    match runAt y line with
    | [] => match line with [] => true | _ :: t => noRunBefore y n' t end
    | _ => false
    end
  end.

(** None of the first [n] positions of [line] starts a caption. *)
Fixpoint noCaptionBefore (n : nat) (line : str) : bool :=
  match n with
  | O => true
  | S n' =>
    match captionAt line with
    | None => match line with [] => true | _ :: t => noCaptionBefore n' t end
    | Some _ => false
    end
  end.

(** The first caption of the line, if any. *)
Fixpoint firstCaption (s : str) : option str :=
  match captionAt s with
  | Some (x, _) => Some x
  | None => match s with [] => None | _ :: t => firstCaption t end
  end.

(** [cs] is the first run with marker [A y] of [line]: the marker is
    followed by the bracket groups of [cs], at least one, the text after
    them does not go on with a bracket group, and no run starts at an
    earlier position. *)
Definition RunOf (y : ascii) (line : str) (cs : list str) : Prop :=
  exists pre rest,
    line = pre ++ "A" :: y :: groupsText cs ++ rest
    /\ cs <> []
    /\ forallb isCoord cs = true
    /\ headGroup rest = None
    /\ noRunBefore y (length pre) line = true.

(** [cap] is the first caption of [line]: the marker [C], a bracketed
    span whose content [cap] holds no closing bracket (and no newline),
    and no caption starting at an earlier position. *)
Definition CaptionOf (line : str) (cap : str) : Prop :=
  exists pre post,
    line = pre ++ "C" :: "[" :: cap ++ "]" :: post
    /\ noChar "]" cap = true
    /\ noChar newline cap = true
    /\ noCaptionBefore (length pre) line = true.

(** What a run extraction does on a line: nothing is collected when no
    position of the line starts a run; otherwise the line splits around
    its first run and exactly the groups of that run are collected. *)
Definition RunExtraction (y : ascii) (re : regex) (line : str) : Prop :=
  (extractCoords re line = [] /\ noRunBefore y (S (length line)) line = true)
  \/ exists pre cs rest,
       line = pre ++ "A" :: y :: groupsText cs ++ rest
       /\ cs <> []
       /\ forallb isCoord cs = true
       /\ headGroup rest = None
       /\ noRunBefore y (length pre) line = true
       /\ extractCoords re line = cs.

End Scanner.

(** ** The renderer, in the words of the specification *)

Module RenderSpec.
Import Scanner.

(** The error [sgfToIndex] reports for a string that is no coordinate. *)
Definition coordError (c : str) : error :=
  if (length c =? 2)%nat then ErrCoordOutOfRange c else ErrInvalidCoord c.

(** The index a coordinate character stands for. *)
Definition indexOf (a : ascii) : Z := (Z.of_N (byteN a) - 97)%Z.

(** The characters a file name keeps. *)
Definition allowed (c : ascii) : bool :=
  let n := byteN c in
  ((65 <=? n) && (n <=? 90) || (97 <=? n) && (n <=? 122)
   || (48 <=? n) && (n <=? 57) || (n =? 95) || (n =? 45))%N.

Definition sanitizeByte (c : ascii) : str :=
  if isChar " " c then ["_"]
  else if allowed c then [c]
  else [].

(** The title with spaces replaced and every other character outside
    letters, digits, underscore and hyphen dropped. *)
Definition sanitized (name : str) : str := flat_map sanitizeByte name.

(** The first string of [cs] that is no coordinate. *)
Definition firstBad (cs : list str) : option str :=
  find (fun c => negb (isCoord c)) cs.

End RenderSpec.

(** ** The loader, in the words of the specification *)

Module LoaderSpec.

Definition parses (line : str) : bool :=
  match ParseSGFLine line with
  | Ok _ => true
  | Err _ => false
  end.

(** The puzzles of the lines that parse, in the order of the lines. *)
Definition parsedOf (lines : list str) : list GoProblem :=
  flat_map (fun l => match ParseSGFLine l with Ok p => [p] | Err _ => [] end) lines.

(** The log entries of the lines that do not parse. *)
Definition skippedOf (lines : list str) : list logEntry :=
  flat_map (fun l => match ParseSGFLine l with Ok _ => [] | Err e => [mkLog l e] end) lines.

(** The number of malformed lines. *)
Definition malformed (lines : list str) : nat :=
  length (filter (fun l => negb (parses l)) lines).

End LoaderSpec.

(** ** Matching byte by byte

    The patterns of the parser begin with an ASCII letter and, apart
    from the content of a caption, only accept ASCII characters.  The
    definitions below describe their matches byte by byte; the lemmas
    further down relate them to the matcher, which steps by runes. *)

Module Bytewise.
Import Scanner.

(** A byte outside ASCII. *)
Definition high (c : ascii) : Prop := (0x80 <= byteN c)%N.

(** An input step that looks at one byte. *)
Definition byte_atom (q : ascii -> bool) (c : caps) (s : str) (k : cont) : outcome :=
  match s with
  | [] => None
  | b :: t => if q b then k c t else None
  end.

(** The leftmost match, trying every byte position. *)
Fixpoint scan (re : regex) (s : str) : option (str * caps * str) :=
  match match_here re s with
  | Some (c, rest) => Some (s, c, rest)
  | None =>
    match s with
    | [] => None
    | _ :: t => scan re t
    end
  end.

(** What the run pattern matches at the head of a string. *)
Definition runMatch (y : ascii) (s : str) : option (caps * str) :=
  match s with
  | a :: b :: u =>
    if isChar "A" a && isChar y b then
      match headGroup u with
      | Some _ => Some ([(1, groupsText (takeGroups u))], skipGroups u)
      | None => None
      end
    else None
  | _ => None
  end.

(** What follows the lazy loop in the caption pattern, for a group
    opened at [u0]: the group is closed and a closing bracket is
    expected. *)
Definition closing (u0 : str) : cont :=
  fun c' s' =>
    m (Lit "]") ((1, firstn (length u0 - length s') u0) :: c') s'
      (fun c s => Some (c, s)).

End Bytewise.

(** ** Sample data *)

(** No file at all. *)
Definition noFiles : filesystem := fun _ => None.

Definition testX : GoProblem :=
  {| Name := bytes "TestX"; Black := [bytes "dd"; bytes "ee"]; White := [bytes "cc"] |}.

Definition badStone : GoProblem :=
  {| Name := bytes "Bad"; Black := [bytes "dd"]; White := [bytes "zz"] |}.

(** A disk with one file of four lines, two of them malformed. *)
Definition sampleDisk (path : str) : source :=
  if str_eqb path (bytes "problems.sgf") then
    Opened [bytes "(;AB[aa][bb]AW[cc][dd])";
            bytes "invalid line";
            bytes "(;C[Reorder]AW[dd]AB[cc])";
            []] None
  else OpenFails (bytes "no such file or directory").

Definition emptyState : loadState :=
  {| parser := {| Problems := [] |}; logged := [] |}.

(** ** Records, coordinates and the drawn board *)

Module Format.
Import Scanner RenderSpec.

(** The coordinate of a column and a row. *)
Definition coordOf (x y : Z) : str :=
  [ascii_of_N (Z.to_N (97 + x)); ascii_of_N (Z.to_N (97 + y))].

(** A record in the usual layout: black run, white run, caption. *)
Definition record (bs ws : list str) (cap : str) : str :=
  bytes "(;AB" ++ groupsText bs ++ bytes "AW" ++ groupsText ws
        ++ bytes "C[" ++ cap ++ bytes "])".

(** The stone drawn for a coordinate. *)
Definition stoneOf (fill : Color) (c : str) : drawOp :=
  Stone (indexOf (nth 0 c zero)) (indexOf (nth 1 c zero)) fill.

(** What is drawn before the stones: background, grid, star points. *)
Definition emptyBoard : list drawOp :=
  Clear Wood
  :: (map GridLine (map Z.of_nat (seq 0 19)) ++ [Stroke])
  ++ flat_map (fun ix => map (StarPoint ix) [3; 9; 15]%Z) [3; 9; 15]%Z.

End Format.

(** ** The handlers, in words *)

Module BotSpec.
Import Bot.

(** The role is named "Staff". *)
Definition isStaffRole (r : Role) : bool := str_eqb (RoleName r) (bytes "Staff").

(** The name of the thread a member gets. *)
Definition threadNameOf (member : Member) : str :=
  Username member ++ bytes "'s Daily Thread".

(** The acknowledgement of the daily command. *)
Definition threadCreated : event :=
  Responded (Message (Plain (bytes "Daily practice thread created!")) false).

(** The image of a puzzle as the daily command renders it. *)
Definition dailyImage (prob : GoProblem) : Context :=
  {| width := 800; marginOf := 40;
     drawn := Format.emptyBoard
              ++ map (Format.stoneOf ColorBlack) (Black prob)
              ++ map (Format.stoneOf ColorWhite) (White prob)
              ++ [Label (Name prob)] |}.

(** The path the daily command renders a puzzle to. *)
Definition dailyPath (env : Env) (prob : GoProblem) : str :=
  pathJoin env (bytes "./out") (sanitizeFilename (Name prob) ++ bytes ".png").



(** What registering one command adds to the trace. *)
Definition registered (env : Env) (appID guildID name : str) : event :=
  match createErr env name with
  | Some msg =>
    Logged (WithError (bytes "could not create command '" ++ name ++ bytes "': ")
                      (ApiFailure msg))
  | None => CommandCreated appID guildID name
  end.

End BotSpec.

(** ** Sample data for the handlers *)

Module Samples.
Import Bot.

Definition alice : Member :=
  {| Username := bytes "alice"; GlobalName := bytes "Alice";
     Roles := [bytes "r-all"; bytes "r-staff"] |}.

Definition bob : Member :=
  {| Username := bytes "bob"; GlobalName := bytes "Bob"; Roles := [bytes "r-all"] |}.

(** A day 20000 after the epoch, one hour past midnight; every call
    to Discord, the disk and the database succeeds. *)
Definition calmEnv : Env :=
  {| now := 86400 * 20000 + 3600;
     pathJoin := joinSlash;
     channelOf := fun _ => Some false;
     threadStart := fun _ _ => Some (bytes "thread-1");
     guildRoles := fun _ => Some [mkRole (bytes "Everyone") (bytes "r-all");
                                  mkRole (bytes "Staff") (bytes "r-staff")];
     respondErr := fun _ => None;
     saveFaultOf := NoFault;
     openErr := None;
     sendErr := None;
     dbFault := None;
     createErr := fun _ => None |}.

Definition commandOf (name : str) (who : Member) : Interaction :=
  {| Data := ApplicationCommand name; GuildID := bytes "guild-1";
     ChannelID := bytes "chan-1"; InGuild := Some who |}.

Definition submitOf (time channel : str) (who : Member) : Interaction :=
  {| Data := ModalSubmit (bytes "edit_daily")
               [ActionsRow [TextInput (bytes "daily-time") time];
                ActionsRow [TextInput (bytes "daily-channel") channel]];
     GuildID := bytes "guild-1"; ChannelID := bytes "chan-1"; InGuild := Some who |}.

Definition freshWorld : World :=
  {| trace := []; db := Repo.noRows; files := noFiles |}.

(** The parser after loading the sample file. *)
Definition loadedParser : GoParser :=
  parser (fst (LoadProblems sampleDisk (bytes "problems.sgf") emptyState)).

End Samples.

(** * Properties *)

(** ** Facts about the rune decoder *)

Module Utf8Facts.
Import Utf8 Bytewise.
Local Open Scope N_scope.

Ltac each_byte c := destruct c as [[|] [|] [|] [|] [|] [|] [|] [|]].

Lemma byteN_inj (a b : ascii) : byteN a = byteN b -> a = b.
Proof.
  unfold byteN; intro H.
  rewrite <- (ascii_N_embedding a), <- (ascii_N_embedding b), H; reflexivity.
Qed.

Lemma byteN_bound (a : ascii) : byteN a < 256.
Proof. unfold byteN. apply N_ascii_bounded. Qed.

Lemma lor_high_l (a b : N) : 0x80 <= a -> 0x80 <= N.lor a b.
Proof.
  intro Ha.
  assert (Hp : 0 < a) by lia.
  assert (Hl : 7 <= N.log2 a).
  { apply N.log2_le_pow2; [exact Hp | exact Ha]. }
  assert (Hm : 7 <= N.log2 (N.lor a b)).
  { rewrite N.log2_lor. lia. }
  destruct (N.eq_dec (N.lor a b) 0) as [E|E].
  - rewrite E in Hm. cbn in Hm. lia.
  - apply N.log2_le_pow2 in Hm; [exact Hm | lia].
Qed.

Lemma lor_high_r (a b : N) : 0x80 <= b -> 0x80 <= N.lor a b.
Proof. rewrite N.lor_comm. apply lor_high_l. Qed.

Lemma lead2_high (c : ascii) :
  (byteN c <? 0xC2) = false -> (byteN c <? 0xE0) = true ->
  0x80 <= N.shiftl (N.land (byteN c) 0x1F) 6.
Proof. each_byte c; vm_compute; intros; congruence. Qed.

Lemma lead3_high (c : ascii) :
  (byteN c =? 0xE0) = false ->
  (byteN c <? 0xE0) = false -> (byteN c <? 0xF0) = true ->
  0x80 <= N.shiftl (N.land (byteN c) 0x0F) 12.
Proof. each_byte c; vm_compute; intros; congruence. Qed.

Lemma second3_high (c : ascii) :
  (byteN c <? 0xA0) = false -> (0xBF <? byteN c) = false ->
  0x80 <= N.shiftl (N.land (byteN c) 0x3F) 6.
Proof. each_byte c; vm_compute; intros; congruence. Qed.

Lemma lead4_high (c : ascii) :
  (byteN c =? 0xF0) = false ->
  (byteN c <? 0xF0) = false ->
  0x80 <= N.shiftl (N.land (byteN c) 0x07) 18 \/ (0xF4 <? byteN c) = true.
Proof. each_byte c; vm_compute; intros; (left; congruence) || (right; reflexivity) || congruence. Qed.

Lemma second4_high (c : ascii) :
  (byteN c <? 0x90) = false -> (0xBF <? byteN c) = false ->
  0x80 <= N.shiftl (N.land (byteN c) 0x3F) 12.
Proof. each_byte c; vm_compute; intros; congruence. Qed.

Lemma decode_low (c : ascii) (t : str) :
  byteN c < 0x80 -> decodeRune (c :: t) = (byteN c, 1%nat).
Proof.
  intro H. unfold decodeRune, RuneSelf.
  apply N.ltb_lt in H. rewrite H. reflexivity.
Qed.

Lemma cont_high (lo hi : N) (c : ascii) :
  0x80 <= lo -> out_of lo hi (byteN c) = false -> high c.
Proof.
  unfold out_of, high. intros Hlo H.
  apply orb_false_elim in H. destruct H as [H _].
  apply N.ltb_ge in H. lia.
Qed.

Lemma accept_lo_high (b : N) : 0x80 <= accept_lo b.
Proof.
  unfold accept_lo, locb.
  destruct (b =? 0xE0); [lia|]. destruct (b =? 0xF0); lia.
Qed.

Lemma accept_hi_cont (b : N) : accept_hi b <= 0xBF.
Proof.
  unfold accept_hi, hicb.
  destruct (b =? 0xED); [lia|]. destruct (b =? 0xF4); lia.
Qed.

(** A multi-byte or invalid encoding decodes to a rune outside ASCII,
    and every byte it consumes is outside ASCII. *)
Lemma decode_high (c : ascii) (t : str) :
  high c ->
  0x80 <= fst (decodeRune (c :: t))
  /\ (1 <= snd (decodeRune (c :: t)) <= S (length t))%nat
  /\ Forall high (firstn (snd (decodeRune (c :: t))) (c :: t)).
Proof.
  intro Hc. unfold decodeRune, RuneSelf.
  assert (E0 : (byteN c <? 0x80) = false) by (apply N.ltb_ge; exact Hc).
  rewrite E0.
  assert (Bad : 0x80 <= fst (RuneError, 1%nat)
          /\ (1 <= snd (RuneError, 1%nat) <= S (length t))%nat
          /\ Forall high (firstn (snd (RuneError, 1%nat)) (c :: t))).
  { cbn [fst snd firstn length]. split; [|split].
    - unfold RuneError. lia.
    - lia.
    - constructor; [exact Hc | constructor]. }
  unfold size_of.
  destruct ((byteN c <? 0xC2) || (0xF4 <? byteN c)) eqn:Erng; [exact Bad|].
  apply orb_false_elim in Erng. destruct Erng as [EC2 EF4].
  destruct t as [|c1 t1].
  { destruct (byteN c <? 0xE0); [exact Bad|]. destruct (byteN c <? 0xF0); exact Bad. }
  destruct (out_of (accept_lo (byteN c)) (accept_hi (byteN c)) (byteN c1)) eqn:E1.
  { destruct (byteN c <? 0xE0); [exact Bad|]. destruct (byteN c <? 0xF0); exact Bad. }
  assert (H1 : high c1) by (eapply cont_high; [apply accept_lo_high | exact E1]).
  assert (B1 : (0xBF <? byteN c1) = false).
  { unfold out_of in E1. apply orb_false_elim in E1. destruct E1 as [_ E1].
    apply N.ltb_ge in E1. apply N.ltb_ge.
    pose proof (accept_hi_cont (byteN c)). lia. }
  destruct (byteN c <? 0xE0) eqn:EE0.
  { cbn [Nat.leb fst snd firstn length]. split; [|split; [lia|]].
    - apply lor_high_l. apply lead2_high; assumption.
    - repeat constructor; assumption. }
  destruct t1 as [|c2 t2].
  { destruct (byteN c <? 0xF0); exact Bad. }
  destruct (out_of locb hicb (byteN c2)) eqn:E2.
  { destruct (byteN c <? 0xF0); exact Bad. }
  assert (H2 : high c2) by (eapply cont_high; [|exact E2]; unfold locb; lia).
  destruct (byteN c <? 0xF0) eqn:EF0.
  { cbn [Nat.leb fst snd firstn length]. split; [|split; [lia|]].
    - apply lor_high_l.
      destruct (byteN c =? 0xE0) eqn:EqE0.
      + apply lor_high_r. apply second3_high; [|exact B1].
        unfold out_of, accept_lo in E1. rewrite EqE0 in E1.
        apply orb_false_elim in E1. apply E1.
      + apply lor_high_l. apply lead3_high; assumption.
    - repeat constructor; assumption. }
  destruct t2 as [|c3 t3]; [exact Bad|].
  destruct (out_of locb hicb (byteN c3)) eqn:E3; [exact Bad|].
  assert (H3 : high c3) by (eapply cont_high; [|exact E3]; unfold locb; lia).
  cbn [Nat.leb fst snd firstn length]. split; [|split; [lia|]].
  - apply lor_high_l. apply lor_high_l.
    destruct (byteN c =? 0xF0) eqn:EqF0.
    + apply lor_high_r. apply second4_high; [|exact B1].
      unfold out_of, accept_lo in E1. rewrite EqF0 in E1.
      apply N.eqb_eq in EqF0. rewrite EqF0 in E1. cbn in E1.
      apply orb_false_elim in E1. apply E1.
    + apply lor_high_l.
      destruct (lead4_high c EqF0 EF0) as [H|H]; [exact H | congruence].
  - repeat constructor; assumption.
Qed.

End Utf8Facts.

(** ** Facts about the matcher *)

Module RegexpFacts.
Import Utf8 Scanner Bytewise Utf8Facts.

(** A step that only accepts ASCII runes looks at one byte. *)
Lemma atom_ascii (p : N -> bool) (c : caps) (s : str) (k : cont) :
  (forall r, p r = true -> (r < 0x80)%N) ->
  atom p c s k = byte_atom (fun b => p (byteN b)) c s k.
Proof.
  intro Hp. destruct s as [|b t]; [reflexivity|].
  unfold atom, byte_atom.
  destruct (N.ltb_spec (byteN b) 0x80) as [Hlo|Hhi].
  - rewrite (decode_low b t Hlo). reflexivity.
  - destruct (decode_high b t Hhi) as (Hr & _ & _).
    destruct (decodeRune (b :: t)) as [r w]. cbn [fst] in Hr.
    destruct (p r) eqn:E1.
    + apply Hp in E1. lia.
    + destruct (p (byteN b)) eqn:E2; [|reflexivity].
      apply Hp in E2. lia.
Qed.

Lemma m_Lit (a : ascii) (c : caps) (s : str) (k : cont) :
  (byteN a < 0x80)%N ->
  m (Lit a) c s k = byte_atom (isChar a) c s k.
Proof.
  intro Ha. cbn [m]. rewrite atom_ascii.
  - destruct s as [|b t]; [reflexivity|]. unfold byte_atom, isChar.
    destruct (Ascii.eqb_spec b a) as [->|Hne].
    + rewrite N.eqb_refl. reflexivity.
    + destruct (N.eqb_spec (byteN b) (byteN a)) as [E|_]; [|reflexivity].
      apply byteN_inj in E. contradiction.
  - intros r Hr. apply N.eqb_eq in Hr. subst r. exact Ha.
Qed.

Lemma m_Range (lo hi : ascii) (c : caps) (s : str) (k : cont) :
  (byteN hi < 0x80)%N ->
  m (Range lo hi) c s k = byte_atom (within lo hi) c s k.
Proof.
  intro Hhi. cbn [m]. rewrite atom_ascii; [reflexivity|].
  intros r Hr. apply andb_prop in Hr. destruct Hr as [_ Hr].
  apply N.leb_le in Hr. lia.
Qed.

Section Search.

Variable re : regex.
Hypothesis ascii_start : forall b t, high b -> match_here re (b :: t) = None.

Lemma scan_skip_high (j : nat) (s : str) :
  Forall high (firstn j s) -> scan re s = scan re (skipn j s).
Proof.
  revert s. induction j as [|j IH]; intros s H; [reflexivity|].
  destruct s as [|b t]; [reflexivity|].
  cbn [firstn] in H. inversion H; subst.
  cbn [skipn]. rewrite <- IH by assumption.
  cbn [scan]. rewrite ascii_start by assumption. reflexivity.
Qed.

(** Stepping by runes finds the same match as stepping by bytes, for
    a pattern that can only match at an ASCII character. *)
Lemma search_scan (s : str) (skip : nat) :
  skip <= length s ->
  Forall high (firstn skip s) ->
  search re skip s = scan re (skipn skip s).
Proof.
  revert skip. induction s as [|b t IH]; intros skip Hle H.
  - cbn in Hle. replace skip with 0 by lia. reflexivity.
  - destruct skip as [|j].
    + cbn [search skipn scan].
      destruct (match_here re (b :: t)) as [[c rest]|] eqn:E; [reflexivity|].
      assert (Hw : snd (decodeRune (b :: t)) - 1 <= length t
                   /\ Forall high (firstn (snd (decodeRune (b :: t)) - 1) t)).
      { destruct (N.ltb_spec (byteN b) 0x80) as [Hlo|Hhi].
        - rewrite (decode_low b t Hlo). cbn. split; [lia | constructor].
        - destruct (decode_high b t Hhi) as (_ & Hw & Hf).
          destruct (snd (decodeRune (b :: t))) as [|w]; [lia|].
          cbn [firstn] in Hf. inversion Hf; subst.
          replace (S w - 1) with w by lia. split; [lia | assumption]. }
      destruct Hw as [Hw1 Hw2].
      rewrite IH by assumption.
      symmetry. apply scan_skip_high. assumption.
    + cbn [search skipn]. apply IH.
      * cbn in Hle. lia.
      * cbn [firstn] in H. inversion H; assumption.
Qed.

Lemma search0_scan (s : str) : search re 0 s = scan re s.
Proof. apply (search_scan s 0); [lia | constructor]. Qed.

End Search.

End RegexpFacts.

Module ParserFacts.
Import Utf8 Scanner Bytewise Utf8Facts RegexpFacts.

Lemma blackRunRe_runRe : blackRunRe = runRe "B".
Proof. reflexivity. Qed.

Lemma whiteRunRe_runRe : whiteRunRe = runRe "W".
Proof. reflexivity. Qed.

Lemma m_Cat (r1 r2 : regex) (c : caps) (s : str) (k : cont) :
  m (Cat r1 r2) c s k = m r1 c s (fun c' s' => m r2 c' s' k).
Proof. reflexivity. Qed.

Lemma m_Group (i : nat) (r : regex) (c : caps) (s : str) (k : cont) :
  m (Group i r) c s k
  = m r c s (fun c' s' => k ((i, firstn (length s - length s') s) :: c') s').
Proof. reflexivity. Qed.

Lemma m_Dot (c : caps) (s : str) (k : cont) :
  m Dot c s k = atom (fun x => negb (N.eqb x 10)) c s k.
Proof. reflexivity. Qed.

Lemma m_LazyStar (r : regex) (c : caps) (s : str) (k : cont) :
  m (LazyStar r) c s k = lazy_loop (m r) (length s) c s k.
Proof. reflexivity. Qed.

Lemma low_bracket_l : (byteN "[" < 0x80)%N. Proof. reflexivity. Qed.
Lemma low_bracket_r : (byteN "]" < 0x80)%N. Proof. reflexivity. Qed.
Lemma low_s : (byteN "s" < 0x80)%N. Proof. reflexivity. Qed.
Lemma low_A : (byteN "A" < 0x80)%N. Proof. reflexivity. Qed.
Lemma low_C : (byteN "C" < 0x80)%N. Proof. reflexivity. Qed.

(** One step through a literal or a class at the head of the pattern. *)
Ltac step_atom :=
  first [ rewrite m_Cat | idtac ];
  first [ rewrite m_Lit by (reflexivity || assumption)
        | rewrite m_Range by reflexivity ];
  unfold byte_atom.

Lemma m_coordGroup (c : caps) (s : str) (k : cont) :
  m coordGroup c s k
  = match headGroup s with
    | Some (_, t) => k c t
    | None => None
    end.
Proof.
  unfold coordGroup, headGroup, groupAt.
  step_atom. destruct s as [|o s]; [reflexivity|].
  destruct (isChar "[" o); cbn [andb]; [|destruct s as [|? [|? [|? ?]]]; reflexivity].
  step_atom. destruct s as [|a s]; [reflexivity|].
  fold (inAS a).
  destruct (inAS a); cbn [andb]; [|destruct s as [|? [|? ?]]; reflexivity].
  step_atom. destruct s as [|b s]; [reflexivity|].
  fold (inAS b).
  destruct (inAS b); cbn [andb]; [|destruct s as [|? ?]; reflexivity].
  step_atom. destruct s as [|cl s]; [reflexivity|].
  destruct (isChar "]" cl); reflexivity.
Qed.

Lemma headGroup_shape (s : str) (c t : str) :
  headGroup s = Some (c, t) ->
  s = bracket c ++ t /\ isCoord c = true.
Proof.
  unfold headGroup, groupAt.
  destruct s as [|o [|a [|b [|cl s]]]]; try discriminate.
  destruct (isChar "[" o) eqn:Eo; cbn [andb]; [|discriminate].
  destruct (inAS a) eqn:Ea; cbn [andb]; [|discriminate].
  destruct (inAS b) eqn:Eb; cbn [andb]; [|discriminate].
  destruct (isChar "]" cl) eqn:Ecl; [|discriminate].
  intro H. inversion H; subst.
  unfold isChar in Eo, Ecl.
  apply Ascii.eqb_eq in Eo. apply Ascii.eqb_eq in Ecl. subst.
  split; [reflexivity|]. cbn. rewrite Ea, Eb. reflexivity.
Qed.

Lemma headGroup_bracket (c t : str) :
  isCoord c = true -> headGroup (bracket c ++ t) = Some (c, t).
Proof.
  destruct c as [|a [|b [|? ?]]]; try discriminate.
  cbn [isCoord]. intro H. apply andb_prop in H. destruct H as [Ha Hb].
  cbn. unfold groupAt. rewrite Ha, Hb. reflexivity.
Qed.

Lemma takeGroups_unfold (s : str) :
  takeGroups s
  = match headGroup s with
    | Some (c, t) => c :: takeGroups t
    | None => []
    end.
Proof.
  destruct s as [|o [|a [|b [|cl s]]]]; try reflexivity.
  cbn [takeGroups headGroup]. destruct (groupAt o a b cl); reflexivity.
Qed.

Lemma skipGroups_unfold (s : str) :
  skipGroups s
  = match headGroup s with
    | Some (_, t) => skipGroups t
    | None => s
    end.
Proof.
  destruct s as [|o [|a [|b [|cl s]]]]; try reflexivity.
  cbn [skipGroups headGroup]. destruct (groupAt o a b cl); reflexivity.
Qed.

(** Induction along the bracket groups at the head of a string. *)
Lemma groups_ind (P : str -> Prop) :
  (forall s, headGroup s = None -> P s) ->
  (forall s c t, headGroup s = Some (c, t) -> P t -> P s) ->
  forall s, P s.
Proof.
  intros Hnone Hsome s.
  remember (length s) as n eqn:En. revert s En.
  induction n as [n IH] using lt_wf_ind. intros s En.
  destruct (headGroup s) as [[c t]|] eqn:E.
  - apply (Hsome s c t E).
    apply (IH (length t)); [|reflexivity].
    apply headGroup_shape in E. destruct E as [-> _].
    subst n. unfold bracket. cbn. rewrite !length_app. cbn. lia.
  - apply Hnone. exact E.
Qed.

Lemma groups_split (s : str) :
  s = groupsText (takeGroups s) ++ skipGroups s
  /\ Forall (fun c => isCoord c = true) (takeGroups s)
  /\ headGroup (skipGroups s) = None.
Proof.
  induction s as [s E | s c t E IH] using groups_ind;
    rewrite takeGroups_unfold, skipGroups_unfold, E.
  - repeat split; [constructor | exact E].
  - destruct IH as (IH1 & IH2 & IH3).
    destruct (headGroup_shape _ _ _ E) as [Hs Hc].
    repeat split.
    + cbn [groupsText flat_map]. rewrite <- app_assoc.
      fold (groupsText (takeGroups t)). rewrite <- IH1. exact Hs.
    + constructor; assumption.
    + exact IH3.
Qed.

Lemma headGroup_shorter (s c t : str) :
  headGroup s = Some (c, t) -> length s = 4 + length t.
Proof.
  intro E. apply headGroup_shape in E. destruct E as [-> Hc].
  destruct c as [|a [|b [|? ?]]]; try discriminate. reflexivity.
Qed.

(** The greedy loop over bracket groups, before a continuation that
    cannot fail, consumes every group at the head of the input. *)
Lemma plus_groups (k : cont) :
  (forall c s, k c s <> None) ->
  forall n c s, length s <= n ->
  plus_loop (m coordGroup) n c s k
  = match headGroup s with
    | Some (_, t) => k c (skipGroups t)
    | None => None
    end.
Proof.
  intros Hk. induction n as [|n IH]; intros c s Hn.
  - destruct s; [reflexivity | cbn in Hn; lia].
  - cbn [plus_loop]. rewrite m_coordGroup.
    destruct (headGroup s) as [[g t]|] eqn:E; [|reflexivity].
    pose proof (headGroup_shorter _ _ _ E) as Hlen.
    assert (Hlt : (length t <? length s)%nat = true) by (apply Nat.ltb_lt; lia).
    rewrite Hlt. rewrite IH by lia.
    rewrite (skipGroups_unfold t).
    destruct (headGroup t) as [[g' t']|] eqn:E'; [|reflexivity].
    destruct (k c (skipGroups t')) eqn:Ek; [reflexivity|].
    exfalso. exact (Hk _ _ Ek).
Qed.

Lemma firstn_groups (u : str) :
  firstn (length u - length (skipGroups u)) u = groupsText (takeGroups u).
Proof.
  destruct (groups_split u) as (H & _ & _).
  rewrite H at 1 3.
  rewrite length_app.
  replace (length (groupsText (takeGroups u)) + length (skipGroups u)
           - length (skipGroups u))
    with (length (groupsText (takeGroups u)) + 0) by lia.
  rewrite firstn_app_2. cbn [firstn]. apply app_nil_r.
Qed.

Lemma match_here_runRe (y : ascii) (s : str) :
  (byteN y < 0x80)%N ->
  match_here (runRe y) s = runMatch y s.
Proof.
  intro Hy. unfold match_here, runRe, runMatch.
  step_atom. destruct s as [|a s]; [reflexivity|].
  destruct (isChar "A" a); cbn [andb]; [|destruct s; reflexivity].
  step_atom. destruct s as [|b u]; [reflexivity|].
  destruct (isChar y b); [|reflexivity].
  rewrite m_Group. cbn [m].
  rewrite plus_groups; [|intros; discriminate|lia].
  rewrite (skipGroups_unfold u).
  destruct (headGroup u) as [[g t]|] eqn:E; [|reflexivity].
  pose proof (skipGroups_unfold u) as Hu. rewrite E in Hu.
  rewrite <- Hu. rewrite firstn_groups. reflexivity.
Qed.

Lemma runRe_ascii_start (y : ascii) (b : ascii) (t : str) :
  (byteN y < 0x80)%N -> high b -> match_here (runRe y) (b :: t) = None.
Proof.
  intros Hy Hb. rewrite match_here_runRe by exact Hy.
  unfold runMatch. destruct t as [|b' u]; [reflexivity|].
  unfold isChar at 1. destruct (Ascii.eqb_spec b "A") as [->|_]; [|reflexivity].
  unfold high in Hb. cbn in Hb. lia.
Qed.

(** What the coordinate pattern matches at the head of a string. *)
Lemma match_here_coordRe (s : str) :
  match_here coordRe s
  = match headGroup s with
    | Some (c, t) => Some ([(1, c)], t)
    | None => None
    end.
Proof.
  unfold match_here, coordRe, headGroup, groupAt.
  step_atom. destruct s as [|o s]; [reflexivity|].
  destruct (isChar "[" o); cbn [andb]; [|destruct s as [|? [|? [|? ?]]]; reflexivity].
  rewrite m_Cat, m_Group.
  step_atom. destruct s as [|a s]; [reflexivity|].
  fold (inAS a).
  destruct (inAS a); cbn [andb]; [|destruct s as [|? [|? ?]]; reflexivity].
  step_atom. destruct s as [|b s]; [reflexivity|].
  fold (inAS b).
  destruct (inAS b); cbn [andb]; [|destruct s as [|? ?]; reflexivity].
  step_atom. destruct s as [|cl s]; [reflexivity|].
  destruct (isChar "]" cl); [|reflexivity].
  cbn [length]. replace (S (S (S (length s))) - S (length s)) with 2 by lia.
  reflexivity.
Qed.

Lemma coordRe_ascii_start (b : ascii) (t : str) :
  high b -> match_here coordRe (b :: t) = None.
Proof.
  intro Hb. rewrite match_here_coordRe.
  destruct (headGroup (b :: t)) as [[c u]|] eqn:E; [|reflexivity].
  apply headGroup_shape in E. destruct E as [E _].
  unfold bracket in E. cbn in E. inversion E; subst.
  unfold high in Hb. cbn in Hb. lia.
Qed.

(** The matches of the coordinate pattern in the text of a run. *)
Lemma all_matches_groups (cs : list str) :
  Forall (fun c => isCoord c = true) cs ->
  forall n prev, length cs < n ->
  all_matches coordRe n (groupsText cs) prev
  = map (fun c => [bracket c; c]) cs.
Proof.
  induction 1 as [|c cs Hc Hcs IH]; intros n prev Hn.
  - destruct n as [|n]; [lia|]. reflexivity.
  - destruct n as [|n]; [cbn in Hn; lia|].
    cbn [all_matches groupsText flat_map]. fold (groupsText cs).
    rewrite (search0_scan coordRe coordRe_ascii_start).
    replace (scan coordRe (bracket c ++ groupsText cs))
      with (Some (bracket c ++ groupsText cs, [(1, c)], groupsText cs)).
    2:{ destruct c as [|a [|b [|? ?]]]; try discriminate.
        cbn [bracket app scan]. rewrite match_here_coordRe.
        change ("["%char :: a :: b :: "]"%char :: groupsText cs)
          with (bracket [a; b] ++ groupsText cs).
        rewrite headGroup_bracket by exact Hc. reflexivity. }
    assert (Hlen : length (bracket c ++ groupsText cs) = 4 + length (groupsText cs)).
    { destruct c as [|a [|b [|? ?]]]; try discriminate. reflexivity. }
    assert (Hne : (length (groupsText cs) =? length (bracket c ++ groupsText cs))%nat = false).
    { apply Nat.eqb_neq. lia. }
    rewrite Hne. cbn [map]. f_equal.
    + unfold submatches. rewrite Hlen.
      replace (4 + length (groupsText cs) - length (groupsText cs))
        with (length (bracket c) + 0).
      2:{ destruct c as [|a [|b [|? ?]]]; try discriminate.
          change (length (bracket [a; b])) with 4. lia. }
      rewrite firstn_app_2. cbn [firstn num_groups coordRe Nat.max seq map lookup Nat.eqb].
      rewrite app_nil_r. reflexivity.
    + apply IH. cbn in Hn. lia.
Qed.

Lemma groupsText_length (cs : list str) : length cs <= length (groupsText cs).
Proof.
  induction cs as [|c cs IH]; [cbn; lia|].
  cbn [groupsText flat_map length]. rewrite length_app.
  fold (groupsText cs). unfold bracket. cbn. lia.
Qed.

Lemma coords_of_run (cs : list str) :
  Forall (fun c => isCoord c = true) cs ->
  map sub1 (FindAllStringSubmatch coordRe (groupsText cs)) = cs.
Proof.
  intro H. unfold FindAllStringSubmatch.
  rewrite all_matches_groups; [|exact H|pose proof (groupsText_length cs); lia].
  rewrite map_map. cbn. apply map_id.
Qed.

(** The run extraction of the parser is the first run of the line. *)
Lemma extractCoords_runRe (y : ascii) (line : str) :
  (byteN y < 0x80)%N ->
  extractCoords (runRe y) line = firstRun y line.
Proof.
  intro Hy. unfold extractCoords, FindStringSubmatch.
  rewrite (search0_scan (runRe y) (fun b t => runRe_ascii_start y b t Hy)).
  induction line as [|a s IH].
  - reflexivity.
  - cbn [scan firstRun]. rewrite match_here_runRe by exact Hy.
    unfold runMatch, runAt.
    destruct s as [|b u].
    { cbn. reflexivity. }
    destruct (isChar "A" a && isChar y b).
    + pose proof (takeGroups_unfold u) as Hu.
      destruct (headGroup u) as [[g t]|] eqn:E.
      * unfold submatches, sub1.
        cbn [num_groups runRe coordGroup Nat.max seq map nth lookup Nat.eqb].
        rewrite coords_of_run by apply groups_split.
        rewrite Hu. reflexivity.
      * rewrite Hu. exact IH.
    + exact IH.
Qed.

(** *** The caption *)

Lemma firstn_prefix (pre s : str) :
  firstn (length (pre ++ s) - length s) (pre ++ s) = pre.
Proof.
  rewrite length_app.
  replace (length pre + length s - length s) with (length pre + 0) by lia.
  rewrite firstn_app_2. cbn. apply app_nil_r.
Qed.

Lemma high_not_bracket (b : ascii) : high b -> isChar "]" b = false.
Proof.
  intro H. unfold isChar. destruct (Ascii.eqb_spec b "]") as [->|_]; [|reflexivity].
  unfold high in H. cbn in H. lia.
Qed.

Lemma high_not_newline (b : ascii) : high b -> isChar newline b = false.
Proof.
  intro H. unfold isChar. destruct (Ascii.eqb_spec b newline) as [->|_]; [|reflexivity].
  unfold high in H. cbn in H. lia.
Qed.

(** Bytes outside ASCII at the head of a string belong to the span. *)
Lemma spanTo_skip_high (w : nat) (s : str) :
  Forall high (firstn w s) ->
  spanTo s = match spanTo (skipn w s) with
             | Some (x, r) => Some (firstn w s ++ x, r)
             | None => None
             end.
Proof.
  revert s. induction w as [|w IH]; intros s H.
  - cbn. destruct (spanTo s) as [[x r]|]; reflexivity.
  - destruct s as [|b t]; [reflexivity|].
    cbn [firstn] in H. inversion H; subst.
    cbn [spanTo skipn firstn].
    rewrite high_not_bracket, high_not_newline by assumption.
    rewrite (IH t) by assumption.
    destruct (spanTo (skipn w t)) as [[x r]|]; reflexivity.
Qed.

Lemma lazy_span (u0 : str) (n : nat) :
  forall (s pre : str) (c : caps),
  u0 = pre ++ s -> length s <= n ->
  lazy_loop (m Dot) n c s (closing u0)
  = match spanTo s with
    | Some (x, r) => Some ((1, pre ++ x) :: c, r)
    | None => None
    end.
Proof.
  induction n as [|n IH]; intros s pre c Hu Hn.
  - destruct s; [|cbn in Hn; lia].
    cbn [lazy_loop spanTo]. unfold closing. rewrite m_Lit by reflexivity.
    reflexivity.
  - cbn [lazy_loop].
    assert (Hk : closing u0 c s
                 = match s with
                   | [] => None
                   | b :: t => if isChar "]" b then Some ((1, pre) :: c, t) else None
                   end).
    { unfold closing. rewrite m_Lit by reflexivity. unfold byte_atom.
      destruct s as [|b t]; [reflexivity|].
      destruct (isChar "]" b); [|reflexivity].
      rewrite Hu. rewrite firstn_prefix. reflexivity. }
    rewrite Hk. clear Hk.
    destruct s as [|b t]; [reflexivity|].
    cbn [spanTo].
    destruct (isChar "]" b) eqn:Eb.
    { rewrite app_nil_r. reflexivity. }
    rewrite m_Dot. unfold atom.
    destruct (N.ltb_spec (byteN b) 0x80) as [Hlo|Hhi].
    + rewrite (decode_low b t Hlo). cbn [skipn].
      unfold isChar at 1.
      destruct (Ascii.eqb_spec b newline) as [->|Hnl].
      * reflexivity.
      * destruct (N.eqb_spec (byteN b) 10) as [E|_].
        { exfalso. apply Hnl. apply byteN_inj. exact E. }
        cbn [negb].
        assert (Hlt : (length t <? length (b :: t))%nat = true)
          by (apply Nat.ltb_lt; cbn; lia).
        rewrite Hlt.
        rewrite (IH t (pre ++ [b]) c).
        -- destruct (spanTo t) as [[x r]|]; [|reflexivity].
           rewrite <- app_assoc. reflexivity.
        -- rewrite <- app_assoc. exact Hu.
        -- cbn in Hn. lia.
    + destruct (decode_high b t Hhi) as (Hr & Hw & Hf).
      destruct (decodeRune (b :: t)) as [r w]. cbn [fst snd] in *.
      destruct (N.eqb_spec r 10) as [E|_]; [lia|]. cbn [negb].
      assert (Hsk : length (skipn w (b :: t)) = length (b :: t) - w)
        by apply length_skipn.
      assert (Hlt : (length (skipn w (b :: t)) <? length (b :: t))%nat = true).
      { apply Nat.ltb_lt. rewrite Hsk. cbn [length]. lia. }
      rewrite Hlt.
      rewrite (IH (skipn w (b :: t)) (pre ++ firstn w (b :: t)) c).
      * rewrite high_not_newline by exact Hhi.
        pose proof (spanTo_skip_high w (b :: t) Hf) as Hs.
        cbn [spanTo] in Hs. rewrite Eb, (high_not_newline b Hhi) in Hs.
        rewrite Hs.
        destruct (spanTo (skipn w (b :: t))) as [[x r']|]; [|reflexivity].
        rewrite <- app_assoc. reflexivity.
      * rewrite <- app_assoc, firstn_skipn. exact Hu.
      * rewrite Hsk. cbn [length] in *. lia.
Qed.

Lemma match_here_commentRe (s : str) :
  match_here commentRe s
  = match captionAt s with
    | Some (x, r) => Some ([(1, x)], r)
    | None => None
    end.
Proof.
  unfold match_here, commentRe, captionAt.
  step_atom. destruct s as [|a s]; [reflexivity|].
  destruct (isChar "C" a); cbn [andb]; [|destruct s; reflexivity].
  step_atom. destruct s as [|b u]; [reflexivity|].
  destruct (isChar "[" b); [|reflexivity].
  rewrite m_Cat, m_Group, m_LazyStar. cbv beta.
  pose proof (lazy_span u (length u) u [] [] eq_refl (le_n _)) as Hspan.
  unfold closing in Hspan. rewrite Hspan.
  destruct (spanTo u) as [[x r]|]; reflexivity.
Qed.

Lemma commentRe_ascii_start (b : ascii) (t : str) :
  high b -> match_here commentRe (b :: t) = None.
Proof.
  intro Hb. rewrite match_here_commentRe.
  unfold captionAt. destruct t as [|b' u]; [reflexivity|].
  unfold isChar at 1. destruct (Ascii.eqb_spec b "C") as [->|_]; [|reflexivity].
  unfold high in Hb. cbn in Hb. lia.
Qed.

(** The caption extraction of the parser is the first caption of the
    line, and the empty string when there is none. *)
Lemma extractComment_commentRe (line : str) :
  extractComment commentRe line
  = match firstCaption line with
    | Some x => x
    | None => []
    end.
Proof.
  unfold extractComment, FindStringSubmatch.
  rewrite (search0_scan commentRe commentRe_ascii_start).
  induction line as [|a s IH].
  - reflexivity.
  - cbn [scan firstCaption]. rewrite match_here_commentRe.
    destruct (captionAt (a :: s)) as [[x r]|]; [reflexivity | exact IH].
Qed.

(** *** Runs and captions by position *)

Lemma coords_Forall (cs : list str) :
  forallb isCoord cs = true <-> Forall (fun c => isCoord c = true) cs.
Proof.
  rewrite forallb_forall, Forall_forall. reflexivity.
Qed.

Lemma takeGroups_run (cs : list str) (rest : str) :
  forallb isCoord cs = true ->
  takeGroups (groupsText cs ++ rest) = cs ++ takeGroups rest.
Proof.
  induction cs as [|c cs IH]; intro H; [reflexivity|].
  cbn [forallb] in H. apply andb_prop in H. destruct H as [Hc Hcs].
  cbn [groupsText flat_map]. fold (groupsText cs). rewrite <- app_assoc.
  rewrite takeGroups_unfold, headGroup_bracket by exact Hc.
  rewrite IH by exact Hcs. reflexivity.
Qed.

Lemma isChar_refl (a : ascii) : isChar a a = true.
Proof. unfold isChar. apply Ascii.eqb_refl. Qed.

Lemma runAt_run (y : ascii) (cs : list str) (rest : str) :
  forallb isCoord cs = true -> headGroup rest = None ->
  runAt y ("A" :: y :: groupsText cs ++ rest) = cs.
Proof.
  intros Hcs Hrest. unfold runAt. rewrite !isChar_refl. cbn [andb].
  rewrite takeGroups_run by exact Hcs.
  rewrite (takeGroups_unfold rest), Hrest. apply app_nil_r.
Qed.

Lemma firstRun_here (y : ascii) (s : str) :
  runAt y s <> [] -> firstRun y s = runAt y s.
Proof.
  intro H. destruct s as [|a t]; cbn [firstRun];
    destruct (runAt y _); congruence.
Qed.

Lemma firstRun_skip (y : ascii) (pre s : str) :
  noRunBefore y (length pre) (pre ++ s) = true ->
  firstRun y (pre ++ s) = firstRun y s.
Proof.
  induction pre as [|a pre IH]; intro H; [reflexivity|].
  cbn [length noRunBefore app] in H.
  change ((a :: pre) ++ s) with (a :: pre ++ s).
  cbn [firstRun].
  destruct (runAt y (a :: pre ++ s)); [|discriminate].
  apply IH. exact H.
Qed.

(** Every line either has no run at all, or splits around its first run. *)
Lemma firstRun_cases (y : ascii) (line : str) :
  (firstRun y line = [] /\ noRunBefore y (S (length line)) line = true)
  \/ exists pre cs rest,
       line = pre ++ "A" :: y :: groupsText cs ++ rest
       /\ cs <> [] /\ forallb isCoord cs = true /\ headGroup rest = None
       /\ noRunBefore y (length pre) line = true
       /\ firstRun y line = cs.
Proof.
  induction line as [|a s IH].
  - left. split; reflexivity.
  - destruct (runAt y (a :: s)) as [|c cs] eqn:E.
    + destruct IH as [[IH1 IH2]|(pre & cs & rest & -> & Hne & Hcs & Hr & Hno & Hf)].
      * left. cbn [firstRun]. rewrite E. split; [exact IH1|].
        cbn [length noRunBefore]. rewrite E. exact IH2.
      * right. exists (a :: pre), cs, rest.
        split; [reflexivity|]. split; [exact Hne|]. split; [exact Hcs|].
        split; [exact Hr|]. split.
        -- cbn [length noRunBefore app]. cbn [app] in E. rewrite E. exact Hno.
        -- cbn [firstRun app]. cbn [app] in E. rewrite E. exact Hf.
    + right. unfold runAt in E.
      destruct s as [|b u]; [discriminate|].
      destruct (isChar "A" a) eqn:Ea; [|discriminate].
      destruct (isChar y b) eqn:Eb; [|discriminate].
      cbn [andb] in E.
      unfold isChar in Ea, Eb. apply Ascii.eqb_eq in Ea, Eb. subst a b.
      destruct (groups_split u) as (Hu & Hco & Hh).
      exists [], (takeGroups u), (skipGroups u).
      split; [cbn [app]; rewrite <- Hu; reflexivity|].
      split; [rewrite E; discriminate|].
      split; [apply coords_Forall; exact Hco|].
      split; [exact Hh|]. split; [reflexivity|].
      rewrite firstRun_here.
      * unfold runAt. rewrite !isChar_refl. reflexivity.
      * unfold runAt. rewrite !isChar_refl. cbn [andb]. rewrite E. discriminate.
Qed.

Lemma firstRun_split (y : ascii) (pre : str) (cs : list str) (rest : str) :
  cs <> [] -> forallb isCoord cs = true -> headGroup rest = None ->
  noRunBefore y (length pre) (pre ++ "A" :: y :: groupsText cs ++ rest) = true ->
  firstRun y (pre ++ "A" :: y :: groupsText cs ++ rest) = cs.
Proof.
  intros Hne Hcs Hrest Hno.
  rewrite firstRun_skip by exact Hno.
  rewrite firstRun_here; rewrite runAt_run by assumption; [reflexivity | exact Hne].
Qed.

Lemma spanTo_span (cap post : str) :
  noChar "]" cap = true -> noChar newline cap = true ->
  spanTo (cap ++ "]" :: post) = Some (cap, post).
Proof.
  induction cap as [|b cap IH]; intros H1 H2.
  - reflexivity.
  - cbn [noChar forallb] in H1, H2.
    apply andb_prop in H1. destruct H1 as [Hb1 H1].
    apply andb_prop in H2. destruct H2 as [Hb2 H2].
    apply negb_true_iff in Hb1, Hb2.
    cbn [app spanTo]. rewrite Hb1, Hb2.
    rewrite (IH H1 H2). reflexivity.
Qed.

Lemma firstCaption_skip (pre s : str) :
  noCaptionBefore (length pre) (pre ++ s) = true ->
  firstCaption (pre ++ s) = firstCaption s.
Proof.
  induction pre as [|a pre IH]; intro H; [reflexivity|].
  cbn [length noCaptionBefore app] in H.
  change ((a :: pre) ++ s) with (a :: pre ++ s).
  cbn [firstCaption].
  destruct (captionAt (a :: pre ++ s)) as [[? ?]|]; [discriminate|].
  apply IH. exact H.
Qed.

Lemma firstCaption_split (pre cap post : str) :
  noChar "]" cap = true -> noChar newline cap = true ->
  noCaptionBefore (length pre) (pre ++ "C" :: "[" :: cap ++ "]" :: post) = true ->
  firstCaption (pre ++ "C" :: "[" :: cap ++ "]" :: post) = Some cap.
Proof.
  intros H1 H2 Hno. rewrite firstCaption_skip by exact Hno.
  cbn [firstCaption captionAt]. rewrite !isChar_refl. cbn [andb].
  rewrite spanTo_span by assumption. reflexivity.
Qed.

(** Every coordinate a run extraction returns is two characters of a-s. *)
Lemma firstRun_coords (y : ascii) (line : str) :
  forallb isCoord (firstRun y line) = true.
Proof.
  destruct (firstRun_cases y line) as [[-> _]|(pre & cs & rest & _ & _ & Hcs & _ & _ & ->)].
  - reflexivity.
  - exact Hcs.
Qed.

Lemma low_B : (byteN "B" < 0x80)%N. Proof. reflexivity. Qed.
Lemma low_W : (byteN "W" < 0x80)%N. Proof. reflexivity. Qed.

Lemma extractCoords_black (line : str) :
  extractCoords blackRunRe line = firstRun "B" line.
Proof. apply (extractCoords_runRe "B"). reflexivity. Qed.

Lemma extractCoords_white (line : str) :
  extractCoords whiteRunRe line = firstRun "W" line.
Proof. apply (extractCoords_runRe "W"). reflexivity. Qed.

End ParserFacts.

(** ** Facts about the renderer *)

Module RenderFacts.
Import Utf8 Scanner RenderSpec Bytewise Utf8Facts RegexpFacts.

Lemma inAS_index (a : ascii) :
  inAS a = true -> byte_sub a "a" = indexOf a /\ (0 <= indexOf a <= 18)%Z.
Proof.
  unfold inAS, within, byte_sub, indexOf. intro H.
  apply andb_prop in H. destruct H as [H1 H2].
  apply N.leb_le in H1, H2.
  change (byteN "a") with 97%N in *. change (byteN "s") with 115%N in *.
  change (Z.of_N 97) with 97%Z.
  rewrite Z.mod_small by lia. lia.
Qed.

Lemma not_inAS_index (a : ascii) :
  inAS a = false -> (19 <= byte_sub a "a" < 256)%Z.
Proof.
  unfold inAS, within, byte_sub. intro H.
  change (byteN "a") with 97%N in *. change (byteN "s") with 115%N in *.
  change (Z.of_N 97) with 97%Z.
  pose proof (byteN_bound a) as Hb.
  apply andb_false_iff in H.
  assert (Hc : (byteN a < 97 \/ 115 < byteN a)%N).
  { destruct H as [H|H]; apply N.leb_gt in H; [left|right]; exact H. }
  clear H.
  pose proof (Z.mod_pos_bound (Z.of_N (byteN a) - 97) 256 eq_refl) as Hm.
  destruct Hc as [Hc|Hc].
  - replace (Z.of_N (byteN a) - 97)%Z with ((Z.of_N (byteN a) + 159) + (-1) * 256)%Z by lia.
    rewrite Z.mod_add by lia. rewrite Z.mod_small by lia. lia.
  - rewrite Z.mod_small by lia. lia.
Qed.

(** [sgfToIndex] accepts exactly the coordinates. *)
Lemma sgfToIndex_spec (c : str) :
  sgfToIndex c
  = if isCoord c then Ok (indexOf (nth 0 c zero), indexOf (nth 1 c zero))
    else Err (coordError c).
Proof.
  unfold sgfToIndex, coordError.
  destruct c as [|a [|b [|x t]]]; try reflexivity.
  cbn [length Nat.eqb negb nth isCoord].
  destruct (inAS a) eqn:Ea.
  - destruct (inAS_index a Ea) as [-> Ha].
    destruct (inAS b) eqn:Eb.
    + destruct (inAS_index b Eb) as [-> Hb]. cbn [andb].
      replace (indexOf a <? 0)%Z with false by (symmetry; apply Z.ltb_ge; lia).
      replace (indexOf a >=? 19)%Z with false by (symmetry; rewrite Z.geb_leb; apply Z.leb_gt; lia).
      replace (indexOf b <? 0)%Z with false by (symmetry; apply Z.ltb_ge; lia).
      replace (indexOf b >=? 19)%Z with false by (symmetry; rewrite Z.geb_leb; apply Z.leb_gt; lia).
      reflexivity.
    + pose proof (not_inAS_index b Eb) as Hb. cbn [andb].
      replace (byte_sub b "a" >=? 19)%Z with true by (symmetry; rewrite Z.geb_leb; apply Z.leb_le; lia).
      rewrite !orb_true_r. reflexivity.
  - pose proof (not_inAS_index a Ea) as Ha. cbn [andb].
    replace (byte_sub a "a" >=? 19)%Z with true by (symmetry; rewrite Z.geb_leb; apply Z.leb_le; lia).
    rewrite orb_true_r. reflexivity.
Qed.

Lemma sgfToIndex_range (c : str) (x y : Z) :
  sgfToIndex c = Ok (x, y) -> isCoord c = true /\ (0 <= x <= 18)%Z /\ (0 <= y <= 18)%Z.
Proof.
  rewrite sgfToIndex_spec. destruct (isCoord c) eqn:E; [|discriminate].
  intro H. inversion H; subst. split; [reflexivity|].
  destruct c as [|a [|b [|? ?]]]; try discriminate.
  cbn [isCoord] in E. apply andb_prop in E. destruct E as [Ea Eb].
  cbn [nth]. split; [apply (inAS_index a Ea) | apply (inAS_index b Eb)].
Qed.

Lemma placeStones_good (cs : list str) (fill : Color) :
  forallb isCoord cs = true ->
  forall dc, exists dc', placeStones dc cs fill = Ok dc'.
Proof.
  induction cs as [|c cs IH]; intros H dc.
  - exists dc. reflexivity.
  - cbn [forallb] in H. apply andb_prop in H. destruct H as [Hc Hcs].
    cbn [placeStones]. unfold drawStone. rewrite sgfToIndex_spec, Hc.
    apply IH. exact Hcs.
Qed.

Lemma firstBad_none (cs : list str) :
  firstBad cs = None <-> forallb isCoord cs = true.
Proof.
  unfold firstBad. induction cs as [|c cs IH]; [split; reflexivity|].
  cbn [find forallb]. destruct (isCoord c); cbn [negb andb]; [exact IH|].
  split; discriminate.
Qed.

Lemma firstBad_some (cs : list str) (c : str) :
  firstBad cs = Some c -> In c cs /\ isCoord c = false.
Proof.
  unfold firstBad. intro H. apply find_some in H. destruct H as [Hin Hc].
  split; [exact Hin|]. apply negb_true_iff. exact Hc.
Qed.

Lemma firstBad_app (xs ys : list str) :
  firstBad (xs ++ ys)
  = match firstBad xs with
    | Some c => Some c
    | None => firstBad ys
    end.
Proof.
  unfold firstBad. induction xs as [|x xs IH]; [reflexivity|].
  cbn [app find]. destruct (negb (isCoord x)); [reflexivity | exact IH].
Qed.

Lemma placeStones_bad (cs : list str) (fill : Color) (c : str) :
  firstBad cs = Some c ->
  forall dc, placeStones dc cs fill = Err (coordError c).
Proof.
  unfold firstBad. induction cs as [|x cs IH]; intros H dc; [discriminate|].
  cbn [find] in H. cbn [placeStones]. unfold drawStone. rewrite sgfToIndex_spec.
  destruct (isCoord x); cbn [negb] in H.
  - apply IH. exact H.
  - inversion H; subst. reflexivity.
Qed.

Section Render.

Variable Join : str -> str -> str.

(** A puzzle with a string that is no coordinate is not rendered: the
    first such string is reported and the file system is untouched. *)
Lemma render_bad (p : GoProblem) (dir : str) (size margin : Z)
      (fault : saveFault) (fs : filesystem) (c : str) :
  firstBad (Black p ++ White p) = Some c ->
  RenderProblem Join p dir size margin fault fs = (fs, Err (coordError c)).
Proof.
  intro H. unfold RenderProblem. rewrite firstBad_app in H.
  destruct (firstBad (Black p)) as [b|] eqn:Eb.
  - inversion H; subst. rewrite (placeStones_bad _ _ _ Eb). reflexivity.
  - apply firstBad_none in Eb.
    destruct (placeStones_good (Black p) ColorBlack Eb
                (draw (draw {| width := size; marginOf := margin; drawn := [Clear Wood] |}
                   (map GridLine (map Z.of_nat (seq 0 19)) ++ [Stroke]))
                   (flat_map (fun ix => map (StarPoint ix) [3; 9; 15]%Z) [3; 9; 15]%Z)))
      as [dc1 E1].
    rewrite E1. rewrite (placeStones_bad _ _ _ H). reflexivity.
Qed.

(** A puzzle whose stones are all coordinates is drawn and handed to
    the save step, whose outcome is the outcome of the call. *)
Lemma render_good (p : GoProblem) (dir : str) (size margin : Z)
      (fault : saveFault) (fs : filesystem) :
  forallb isCoord (Black p ++ White p) = true ->
  exists dc,
    RenderProblem Join p dir size margin fault fs
    = match SavePNG fault dc (outPathOf Join p dir) fs with
      | (fs', Some e) => (fs', Err e)
      | (fs', None) => (fs', Ok (outPathOf Join p dir))
      end.
Proof.
  intro H. rewrite forallb_app in H. apply andb_prop in H. destruct H as [Hb Hw].
  unfold RenderProblem.
  destruct (placeStones_good (Black p) ColorBlack Hb
              (draw (draw {| width := size; marginOf := margin; drawn := [Clear Wood] |}
                 (map GridLine (map Z.of_nat (seq 0 19)) ++ [Stroke]))
                 (flat_map (fun ix => map (StarPoint ix) [3; 9; 15]%Z) [3; 9; 15]%Z)))
    as [dc1 E1].
  rewrite E1.
  destruct (placeStones_good (White p) ColorWhite Hw dc1) as [dc2 E2].
  rewrite E2.
  exists (draw dc2 [Label (Name p)]). reflexivity.
Qed.

End Render.

End RenderFacts.

(** ** Facts about file names *)

Module SanitizeFacts.
Import Utf8 Scanner RenderSpec Bytewise Utf8Facts RegexpFacts.

Lemma fold_append (f : N -> str) (l : list N) (acc : str) :
  fold_left (fun out r => out ++ f r) l acc = acc ++ flat_map f l.
Proof.
  revert acc. induction l as [|r l IH]; intro acc.
  - cbn. symmetry. apply app_nil_r.
  - cbn [fold_left flat_map]. rewrite IH, app_assoc. reflexivity.
Qed.

Lemma sanitizeRune_high (r : N) : (0x80 <= r)%N -> sanitizeRune r = [].
Proof.
  intro H. unfold sanitizeRune.
  destruct (N.eqb_spec r 32) as [E|_]; [lia|].
  replace (r <=? 90)%N with false by (symmetry; apply N.leb_gt; lia).
  replace (r <=? 122)%N with false by (symmetry; apply N.leb_gt; lia).
  replace (r <=? 57)%N with false by (symmetry; apply N.leb_gt; lia).
  destruct (N.eqb_spec r 95) as [E|_]; [lia|].
  destruct (N.eqb_spec r 45) as [E|_]; [lia|].
  rewrite !andb_false_r. reflexivity.
Qed.

Lemma sanitizeRune_byte (c : ascii) : sanitizeRune (byteN c) = sanitizeByte c.
Proof.
  unfold sanitizeRune, sanitizeByte, allowed, isChar.
  destruct (Ascii.eqb_spec c " ") as [->|Hne].
  - reflexivity.
  - destruct (N.eqb_spec (byteN c) 32) as [E|_].
    + exfalso. apply Hne. apply byteN_inj. exact E.
    + unfold byteN at 11. rewrite ascii_N_embedding. reflexivity.
Qed.

Lemma sanitizeByte_high (c : ascii) : high c -> sanitizeByte c = [].
Proof.
  intro H. rewrite <- sanitizeRune_byte. apply sanitizeRune_high. exact H.
Qed.

Lemma sanitized_skip_high (j : nat) (s : str) :
  Forall high (firstn j s) -> sanitized s = sanitized (skipn j s).
Proof.
  revert s. induction j as [|j IH]; intros s H; [reflexivity|].
  destruct s as [|b t]; [reflexivity|].
  cbn [firstn] in H. inversion H; subst.
  cbn [skipn]. rewrite <- IH by assumption.
  unfold sanitized. cbn [flat_map]. rewrite sanitizeByte_high by assumption.
  reflexivity.
Qed.

(** Ranging over the runes of a title and keeping the permitted ones
    is filtering its bytes. *)
Lemma runes_sanitized (s : str) (skip : nat) :
  skip <= length s ->
  Forall high (firstn skip s) ->
  flat_map sanitizeRune (runes_from skip s) = sanitized (skipn skip s).
Proof.
  revert skip. induction s as [|b t IH]; intros skip Hle H.
  - cbn in Hle. replace skip with 0 by lia. reflexivity.
  - destruct skip as [|j].
    + cbn [runes_from skipn].
      destruct (N.ltb_spec (byteN b) 0x80) as [Hlo|Hhi].
      * rewrite (decode_low b t Hlo). cbn [flat_map Nat.sub].
        rewrite (IH 0) by (try lia; constructor).
        rewrite sanitizeRune_byte. reflexivity.
      * destruct (decode_high b t Hhi) as (Hr & Hw & Hf).
        destruct (decodeRune (b :: t)) as [r w]. cbn [fst snd] in *.
        cbn [flat_map]. rewrite sanitizeRune_high by exact Hr.
        destruct w as [|w]; [lia|].
        cbn [firstn] in Hf. inversion Hf; subst.
        replace (S w - 1) with w by lia.
        rewrite IH by (try lia; assumption).
        unfold sanitized at 2. cbn [flat_map app].
        rewrite sanitizeByte_high by assumption.
        symmetry. apply sanitized_skip_high. assumption.
    + cbn [runes_from skipn]. apply IH.
      * cbn in Hle. lia.
      * cbn [firstn] in H. inversion H; assumption.
Qed.

Lemma sanitizeFilename_bytes (name : str) :
  sanitizeFilename name
  = if str_eqb (sanitized name) [] then bytes "problem" else sanitized name.
Proof.
  unfold sanitizeFilename. rewrite fold_append. cbn [app].
  unfold runes. rewrite (runes_sanitized name 0) by (try lia; constructor).
  reflexivity.
Qed.

Lemma sanitizeByte_allowed (c : ascii) :
  Forall (fun b => allowed b = true) (sanitizeByte c).
Proof.
  unfold sanitizeByte. destruct (isChar " " c).
  - repeat constructor.
  - destruct (allowed c) eqn:E; repeat constructor. exact E.
Qed.

Lemma sanitized_allowed (s : str) :
  Forall (fun b => allowed b = true) (sanitized s).
Proof.
  unfold sanitized. induction s as [|c s IH]; [constructor|].
  cbn [flat_map]. apply Forall_app. split; [apply sanitizeByte_allowed | exact IH].
Qed.

Lemma allowed_kept (c : ascii) : allowed c = true -> sanitizeByte c = [c].
Proof.
  intro H. unfold sanitizeByte, isChar.
  destruct (Ascii.eqb_spec c " ") as [->|_]; [discriminate|].
  rewrite H. reflexivity.
Qed.

Lemma sanitized_fixed (s : str) :
  Forall (fun b => allowed b = true) s -> sanitized s = s.
Proof.
  unfold sanitized. induction 1 as [|c s Hc Hs IH]; [reflexivity|].
  cbn [flat_map]. rewrite allowed_kept by exact Hc. rewrite IH. reflexivity.
Qed.

Lemma sanitizeFilename_idem (name : str) :
  sanitizeFilename (sanitizeFilename name) = sanitizeFilename name.
Proof.
  rewrite (sanitizeFilename_bytes name).
  destruct (str_eqb (sanitized name) []) eqn:E.
  - vm_compute. reflexivity.
  - rewrite sanitizeFilename_bytes.
    rewrite (sanitized_fixed (sanitized name)) by apply sanitized_allowed.
    rewrite E. reflexivity.
Qed.

End SanitizeFacts.

(** ** Facts about the loader *)

Module LoaderFacts.
Import LoaderSpec.

Lemma scanLoop_spec (lines : list str) (st : loadState) :
  scanLoop lines st
  = {| parser := {| Problems := Problems (parser st) ++ parsedOf lines |};
       logged := logged st ++ skippedOf lines |}.
Proof.
  revert st. induction lines as [|l lines IH]; intro st.
  - cbn. rewrite !app_nil_r. destruct st as [[ps] lg]. reflexivity.
  - cbn [scanLoop parsedOf skippedOf flat_map].
    destruct (ParseSGFLine l) as [prob|e]; rewrite IH; cbn [parser logged Problems];
      rewrite <- ?app_assoc; reflexivity.
Qed.

Lemma parsedOf_filter (lines : list str) :
  map Ok (parsedOf lines) = map ParseSGFLine (filter parses lines).
Proof.
  induction lines as [|l lines IH]; [reflexivity|].
  cbn [parsedOf flat_map filter]. unfold parses at 1.
  destruct (ParseSGFLine l) as [prob|e] eqn:E.
  - cbn [app map]. rewrite E. f_equal. exact IH.
  - exact IH.
Qed.

Lemma parsedOf_count (lines : list str) :
  length (parsedOf lines) + malformed lines = length lines.
Proof.
  unfold malformed. induction lines as [|l lines IH]; [reflexivity|].
  cbn [parsedOf flat_map filter length]. unfold parses at 1.
  destruct (ParseSGFLine l) as [prob|e]; cbn [negb app length]; fold (parsedOf lines); lia.
Qed.

Lemma skippedOf_count (lines : list str) :
  length (skippedOf lines) = malformed lines.
Proof.
  unfold malformed. induction lines as [|l lines IH]; [reflexivity|].
  cbn [skippedOf flat_map filter]. unfold parses at 1.
  destruct (ParseSGFLine l) as [prob|e]; cbn [negb app length]; fold (skippedOf lines); lia.
Qed.

Lemma skippedOf_lines (lines : list str) :
  map logLine (skippedOf lines) = filter (fun l => negb (parses l)) lines.
Proof.
  induction lines as [|l lines IH]; [reflexivity|].
  cbn [skippedOf flat_map filter]. unfold parses at 1.
  destruct (ParseSGFLine l) as [prob|e]; cbn [negb app map logLine]; fold (skippedOf lines);
    rewrite IH; reflexivity.
Qed.

End LoaderFacts.

(** * The properties of the specification *)

Import Scanner RenderSpec LoaderSpec Bytewise.
Import Utf8Facts RegexpFacts ParserFacts RenderFacts SanitizeFacts LoaderFacts.

Lemma extract_RunOf (y : ascii) (line : str) (cs : list str) :
  RunOf y line cs -> firstRun y line = cs.
Proof.
  intros (pre & rest & -> & Hne & Hcs & Hrest & Hno).
  apply firstRun_split; assumption.
Qed.

Lemma extract_CaptionOf (line cap : str) :
  CaptionOf line cap -> extractComment commentRe line = cap.
Proof.
  intros (pre & post & -> & H1 & H2 & Hno).
  rewrite extractComment_commentRe, firstCaption_split by assumption.
  reflexivity.
Qed.

(** C1: a line with a black run, a white run and a caption, in any
    order, parses to the puzzle whose black and white stones are the
    coordinates of the respective run, in order and with duplicates
    kept, and whose name is the content of the caption. *)
Theorem parse_runs_and_caption (line : str) (bs ws : list str) (cap : str) :
  RunOf "B" line bs -> RunOf "W" line ws -> CaptionOf line cap ->
  ParseSGFLine line = Ok {| Name := cap; Black := bs; White := ws |}.
Proof.
  intros Hb Hw Hc. unfold ParseSGFLine.
  rewrite extractCoords_black, extractCoords_white.
  rewrite (extract_RunOf _ _ _ Hb), (extract_RunOf _ _ _ Hw).
  rewrite (extract_CaptionOf _ _ Hc).
  destruct Hb as (_ & _ & _ & Hne & _).
  destruct bs as [|b bs]; [contradiction|]. reflexivity.
Qed.

Lemma parse_runs_and_caption_witness :
  ParseSGFLine (bytes "(;AB[cc][cd][dd]AW[dd][de]C[Example problem])")
  = Ok {| Name := bytes "Example problem";
          Black := [bytes "cc"; bytes "cd"; bytes "dd"];
          White := [bytes "dd"; bytes "de"] |}.
Proof.
  apply parse_runs_and_caption.
  - exists (bytes "(;"), (bytes "AW[dd][de]C[Example problem])").
    repeat split; try reflexivity. discriminate.
  - exists (bytes "(;AB[cc][cd][dd]"), (bytes "C[Example problem])").
    repeat split; try reflexivity. discriminate.
  - exists (bytes "(;AB[cc][cd][dd]AW[dd][de]"), (bytes ")").
    repeat split; reflexivity.
Defined.

Example scenario3 :
  ParseSGFLine (bytes "(;C[Reorder]AW[dd]AB[cc])")
  = Ok {| Name := bytes "Reorder"; Black := [bytes "cc"]; White := [bytes "dd"] |}.
Proof. vm_compute. reflexivity. Qed.

Example duplicates_kept :
  ParseSGFLine (bytes "AB[cc][cc]AW[cc]C[x]")
  = Ok {| Name := bytes "x"; Black := [bytes "cc"; bytes "cc"]; White := [bytes "cc"] |}.
Proof. vm_compute. reflexivity. Qed.

(** C2: [ParseSGFLine] fails, with the error that no property was
    found, exactly when the three extractions all come back empty;
    otherwise it returns the puzzle made of what they found. *)
Theorem parse_fails_iff_nothing_found (line : str) :
  (ParseSGFLine line = Err ErrNoProperties
   <-> extractCoords blackRunRe line = []
       /\ extractCoords whiteRunRe line = []
       /\ extractComment commentRe line = [])
  /\ (forall e, ParseSGFLine line = Err e -> e = ErrNoProperties)
  /\ (~ (extractCoords blackRunRe line = []
         /\ extractCoords whiteRunRe line = []
         /\ extractComment commentRe line = []) ->
      ParseSGFLine line
      = Ok {| Name := extractComment commentRe line;
              Black := extractCoords blackRunRe line;
              White := extractCoords whiteRunRe line |}).
Proof.
  unfold ParseSGFLine.
  destruct (extractCoords blackRunRe line) as [|b bs];
    destruct (extractCoords whiteRunRe line) as [|w ws];
    destruct (extractComment commentRe line) as [|c cs];
    cbn [length Nat.eqb andb];
    try (split; [split; [discriminate | intros (? & ? & ?); discriminate]
                | split; [intros e He; discriminate | reflexivity]]).
  split; [split; [intros _; repeat split | reflexivity]|].
  split; [intros e He; inversion He; reflexivity|].
  intro H. exfalso. apply H. repeat split.
Qed.

Lemma parse_fails_iff_nothing_found_witness :
  ParseSGFLine (bytes "(;C[Only a caption])")
  = Ok {| Name := bytes "Only a caption"; Black := []; White := [] |}
  /\ ParseSGFLine (bytes "invalid line") = Err ErrNoProperties.
Proof.
  split.
  - apply (proj2 (proj2 (parse_fails_iff_nothing_found (bytes "(;C[Only a caption])")))).
    vm_compute. intros (_ & _ & H). discriminate.
  - apply (proj1 (parse_fails_iff_nothing_found (bytes "invalid line"))).
    vm_compute. repeat split.
Defined.

(** C5: on every line, a run extraction collects exactly the bracket
    groups that follow the marker of the first run one after another,
    and stops at the first text that is not such a group; groups further
    on in the line are not collected. *)
Theorem run_is_contiguous (line : str) :
  RunExtraction "B" blackRunRe line /\ RunExtraction "W" whiteRunRe line.
Proof.
  unfold RunExtraction. rewrite extractCoords_black, extractCoords_white.
  split; apply firstRun_cases.
Qed.

Example run_breaks_at_other_text :
  extractCoords blackRunRe (bytes "AB[aa][bb]X[cc]AB[dd]") = [bytes "aa"; bytes "bb"].
Proof. vm_compute. reflexivity. Qed.

Example run_breaks_at_other_coordinate :
  extractCoords blackRunRe (bytes "AB[aa][tt][bb]") = [bytes "aa"].
Proof. vm_compute. reflexivity. Qed.

Example marker_without_group_is_no_run :
  extractCoords whiteRunRe (bytes "AW AW[zz]AW[ab]") = [bytes "ab"].
Proof. vm_compute. reflexivity. Qed.

(** C9: the caption extraction returns the content of the first
    caption of the line, taken as it is up to the first closing bracket;
    what follows that bracket, a second caption included, is ignored. *)
Theorem first_caption_only (pre cap post : str) :
  noChar "]" cap = true ->
  noChar newline cap = true ->
  noCaptionBefore (length pre) (pre ++ "C" :: "[" :: cap ++ "]" :: post) = true ->
  extractComment commentRe (pre ++ "C" :: "[" :: cap ++ "]" :: post) = cap.
Proof.
  intros H1 H2 Hno. apply extract_CaptionOf.
  exists pre, post. repeat split; assumption.
Qed.

Lemma first_caption_only_witness :
  extractComment commentRe (bytes "(;C[first]AB[aa]C[second])") = bytes "first".
Proof.
  apply (first_caption_only (bytes "(;") (bytes "first") (bytes "AB[aa]C[second])"));
    reflexivity.
Defined.

Example caption_no_escaping :
  extractComment commentRe (bytes "C[a [b] c]") = bytes "a [b".
Proof. vm_compute. reflexivity. Qed.

(** Every coordinate of a parsed puzzle is two characters of a-s. *)
Lemma parse_coords_valid (line : str) (p : GoProblem) :
  ParseSGFLine line = Ok p -> forallb isCoord (Black p ++ White p) = true.
Proof.
  unfold ParseSGFLine. rewrite extractCoords_black, extractCoords_white.
  destruct (_ && _); [discriminate|].
  intro H. inversion H; subst. cbn [Black White].
  rewrite forallb_app, !firstRun_coords. reflexivity.
Qed.

Lemma coord_accepted (c : str) :
  isCoord c = true ->
  exists x y, sgfToIndex c = Ok (x, y) /\ (0 <= x <= 18)%Z /\ (0 <= y <= 18)%Z.
Proof.
  intro H. rewrite sgfToIndex_spec, H.
  eexists _, _. split; [reflexivity|].
  destruct c as [|a [|b [|? ?]]]; try discriminate.
  cbn [isCoord] in H. apply andb_prop in H. destruct H as [Ha Hb].
  cbn [nth]. split; [apply (inAS_index a Ha) | apply (inAS_index b Hb)].
Qed.

(** C4, as amended: the renderer rejects a string that is not two
    characters of a-s, but the parser never hands it one: every
    coordinate of a puzzle returned by [ParseSGFLine] decodes to a
    column and a row in [0, 18]. *)
Theorem parsed_coordinates_render (line : str) (p : GoProblem) (c : str) :
  ParseSGFLine line = Ok p -> In c (Black p ++ White p) ->
  exists x y, sgfToIndex c = Ok (x, y) /\ (0 <= x <= 18)%Z /\ (0 <= y <= 18)%Z.
Proof.
  intros Hp Hin. apply coord_accepted.
  apply parse_coords_valid in Hp.
  rewrite forallb_forall in Hp. apply Hp. exact Hin.
Qed.

Lemma parsed_coordinates_render_witness :
  exists x y, sgfToIndex (bytes "cd") = Ok (x, y) /\ (0 <= x <= 18)%Z /\ (0 <= y <= 18)%Z.
Proof.
  apply (parsed_coordinates_render
           (bytes "(;AB[cc][cd][dd]AW[dd][de]C[Example problem])")
           {| Name := bytes "Example problem";
              Black := [bytes "cc"; bytes "cd"; bytes "dd"];
              White := [bytes "dd"; bytes "de"] |}).
  - vm_compute. reflexivity.
  - cbn. right. left. reflexivity.
Defined.

(** C4, as stated, fails: no line parses to a puzzle holding a
    coordinate that [sgfToIndex] rejects. *)
Lemma parser_not_permissive :
  ~ exists line p c e,
      ParseSGFLine line = Ok p /\ In c (Black p ++ White p) /\ sgfToIndex c = Err e.
Proof.
  intros (line & p & c & e & Hp & Hin & He).
  apply parse_coords_valid in Hp.
  rewrite forallb_forall in Hp. specialize (Hp c Hin).
  rewrite sgfToIndex_spec, Hp in He. discriminate.
Qed.

Example out_of_range_group_is_not_parsed :
  ParseSGFLine (bytes "(;AB[zz]C[x])")
  = Ok {| Name := bytes "x"; Black := []; White := [] |}.
Proof. vm_compute. reflexivity. Qed.

(** C3: when every stone of the puzzle is two characters of a-s, the
    call does not fail on a coordinate: it returns the output path, or
    the error of the save step.  When some stone is not of that shape,
    the call returns the error naming such a stone and the file system
    is left as it was. *)
Theorem render_checks_coordinates
        (Join : str -> str -> str) (p : GoProblem) (dir : str)
        (size margin : Z) (fault : saveFault) (fs : filesystem) :
  (forallb isCoord (Black p ++ White p) = true ->
   snd (RenderProblem Join p dir size margin fault fs)
   = match fault with
     | NoFault => Ok (outPathOf Join p dir)
     | CreateFails msg | EncodeFails msg _ => Err (ErrIO msg)
     end)
  /\ (forallb isCoord (Black p ++ White p) = false ->
      exists c,
        In c (Black p ++ White p) /\ isCoord c = false
        /\ RenderProblem Join p dir size margin fault fs = (fs, Err (coordError c))).
Proof.
  split.
  - intro H. destruct (render_good Join p dir size margin fault fs H) as [dc ->].
    destruct fault; reflexivity.
  - intro H. destruct (firstBad (Black p ++ White p)) as [c|] eqn:E.
    + exists c. destruct (firstBad_some _ _ E) as [Hin Hc].
      split; [exact Hin|]. split; [exact Hc|].
      apply render_bad. exact E.
    + apply firstBad_none in E. congruence.
Qed.

Lemma render_checks_coordinates_witness :
  snd (RenderProblem joinSlash testX (bytes "out") 200 20 NoFault noFiles)
  = Ok (bytes "out/TestX.png")
  /\ exists c,
       In c (Black badStone ++ White badStone) /\ isCoord c = false
       /\ RenderProblem joinSlash badStone (bytes "out") 200 20 NoFault noFiles
          = (noFiles, Err (coordError c)).
Proof.
  split.
  - apply (proj1 (render_checks_coordinates joinSlash testX (bytes "out") 200 20
                    NoFault noFiles)).
    reflexivity.
  - apply (proj2 (render_checks_coordinates joinSlash badStone (bytes "out") 200 20
                    NoFault noFiles)).
    reflexivity.
Defined.

Example scenario6 :
  RenderProblem joinSlash badStone (bytes "out") 200 20 NoFault noFiles
  = (noFiles, Err (ErrCoordOutOfRange (bytes "zz"))).
Proof. reflexivity. Qed.

Example malformed_coordinate :
  snd (RenderProblem joinSlash
         {| Name := []; Black := [bytes "abc"]; White := [] |}
         (bytes "out") 200 20 NoFault noFiles)
  = Err (ErrInvalidCoord (bytes "abc")).
Proof. reflexivity. Qed.

(** C7, as amended: when the save step fails the call returns its
    error and does nothing more.  If the file could not be created the
    file system is as before; if encoding failed after the file was
    created, the truncated file stays at the output path. *)
Theorem render_save_failure
        (Join : str -> str -> str) (p : GoProblem) (dir : str)
        (size margin : Z) (fs : filesystem) (msg : str) :
  forallb isCoord (Black p ++ White p) = true ->
  RenderProblem Join p dir size margin (CreateFails msg) fs = (fs, Err (ErrIO msg))
  /\ forall n, exists dc,
       RenderProblem Join p dir size margin (EncodeFails msg n) fs
       = (write fs (outPathOf Join p dir) (Truncated dc n), Err (ErrIO msg)).
Proof.
  intro H. split.
  - destruct (render_good Join p dir size margin (CreateFails msg) fs H) as [dc ->].
    reflexivity.
  - intro n.
    destruct (render_good Join p dir size margin (EncodeFails msg n) fs H) as [dc ->].
    exists dc. reflexivity.
Qed.

Lemma render_save_failure_witness :
  RenderProblem joinSlash testX (bytes "out") 200 20
    (CreateFails (bytes "permission denied")) noFiles
  = (noFiles, Err (ErrIO (bytes "permission denied")))
  /\ exists dc,
       RenderProblem joinSlash testX (bytes "out") 200 20
         (EncodeFails (bytes "permission denied") 8) noFiles
       = (write noFiles (outPathOf joinSlash testX (bytes "out")) (Truncated dc 8),
          Err (ErrIO (bytes "permission denied"))).
Proof.
  destruct (render_save_failure joinSlash testX (bytes "out") 200 20 noFiles
              (bytes "permission denied") eq_refl) as [Hcreate Hencode].
  split; [exact Hcreate | exact (Hencode 8)].
Defined.

(** C7, as stated, fails: an encoding failure leaves the truncated
    file at the output path, where it can be read. *)
Lemma save_leaves_truncated_file :
  let out :=
    RenderProblem joinSlash testX (bytes "out") 200 20
      (EncodeFails (bytes "no space left on device") 8) noFiles in
  snd out = Err (ErrIO (bytes "no space left on device"))
  /\ exists img, fst out (bytes "out/TestX.png") = Some (Truncated img 8).
Proof.
  cbv zeta. split; [reflexivity|]. eexists. vm_compute. reflexivity.
Qed.

(** C8: the file name of a title is the title with every space turned
    into an underscore and every character other than an ASCII letter,
    a digit, an underscore or a hyphen dropped, or "problem" when nothing
    is left; sanitizing twice is sanitizing once; and the output of a
    render is named by that file name followed by ".png", joined with
    the output directory: this is the path a render returns, the only
    path a render can change, and, when the stones are coordinates and
    the save works, the path at which the image is stored. *)
Theorem sanitized_output_name (name : str) :
  sanitizeFilename name
  = (if str_eqb (sanitized name) [] then bytes "problem" else sanitized name)
  /\ sanitizeFilename (sanitizeFilename name) = sanitizeFilename name
  /\ forall (Join : str -> str -> str) (p : GoProblem) (dir : str)
            (size margin : Z) (fs : filesystem),
       Name p = name ->
       (forall (fault : saveFault) (path : str),
          snd (RenderProblem Join p dir size margin fault fs) = Ok path ->
          path = Join dir (sanitizeFilename name ++ bytes ".png"))
       /\ (forall (fault : saveFault) (q : str),
             q <> Join dir (sanitizeFilename name ++ bytes ".png") ->
             fst (RenderProblem Join p dir size margin fault fs) q = fs q)
       /\ (forallb isCoord (Black p ++ White p) = true ->
           exists image,
             RenderProblem Join p dir size margin NoFault fs
             = (write fs (Join dir (sanitizeFilename name ++ bytes ".png")) (PNG image),
                Ok (Join dir (sanitizeFilename name ++ bytes ".png")))
             /\ write fs (Join dir (sanitizeFilename name ++ bytes ".png")) (PNG image)
                      (Join dir (sanitizeFilename name ++ bytes ".png"))
                = Some (PNG image)).
Proof.
  split; [apply sanitizeFilename_bytes|].
  split; [apply sanitizeFilename_idem|].
  intros Join p dir size margin fs Hn. subst name.
  assert (Hcases : forall fault,
             (exists c, RenderProblem Join p dir size margin fault fs = (fs, Err (coordError c)))
             \/ (forallb isCoord (Black p ++ White p) = true
                 /\ exists dc,
                      RenderProblem Join p dir size margin fault fs
                      = match SavePNG fault dc (outPathOf Join p dir) fs with
                        | (fs', Some e) => (fs', Err e)
                        | (fs', None) => (fs', Ok (outPathOf Join p dir))
                        end)).
  { intro fault. destruct (firstBad (Black p ++ White p)) as [c|] eqn:Ef.
    - left. exists c. apply render_bad. exact Ef.
    - right. apply firstBad_none in Ef. split; [exact Ef|].
      apply render_good. exact Ef. }
  split; [|split].
  - intros fault path Hr.
    destruct (Hcases fault) as [[c Hc]|[_ [dc Hd]]].
    + rewrite Hc in Hr. discriminate.
    + rewrite Hd in Hr. destruct fault; cbn in Hr; inversion Hr. reflexivity.
  - intros fault q Hq.
    destruct (Hcases fault) as [[c Hc]|[_ [dc Hd]]].
    + rewrite Hc. reflexivity.
    + rewrite Hd. unfold outPathOf.
      destruct fault; cbn [SavePNG fst]; try reflexivity;
        unfold write, str_eqb;
        (destruct (list_eq_dec ascii_dec q _) as [E|_]; [contradiction | reflexivity]).
  - intro Hvalid.
    destruct (render_good Join p dir size margin NoFault fs Hvalid) as [dc Hd].
    exists dc. split; [exact Hd|].
    unfold write, str_eqb.
    destruct (list_eq_dec ascii_dec _ _) as [_|E]; [reflexivity | contradiction].
Qed.

Lemma sanitized_output_name_witness :
  bytes "out/TestX.png" = joinSlash (bytes "out") (sanitizeFilename (bytes "TestX") ++ bytes ".png")
  /\ exists image,
       RenderProblem joinSlash testX (bytes "out") 200 20 NoFault noFiles
       = (write noFiles
            (joinSlash (bytes "out") (sanitizeFilename (bytes "TestX") ++ bytes ".png"))
            (PNG image),
          Ok (joinSlash (bytes "out") (sanitizeFilename (bytes "TestX") ++ bytes ".png")))
       /\ write noFiles
            (joinSlash (bytes "out") (sanitizeFilename (bytes "TestX") ++ bytes ".png"))
            (PNG image)
            (joinSlash (bytes "out") (sanitizeFilename (bytes "TestX") ++ bytes ".png"))
          = Some (PNG image).
Proof.
  destruct (proj2 (proj2 (sanitized_output_name (bytes "TestX")))
              joinSlash testX (bytes "out") 200%Z 20%Z noFiles eq_refl)
    as (Hpath & _ & Hstored).
  split.
  - apply (Hpath NoFault). reflexivity.
  - apply Hstored. reflexivity.
Defined.

(** A title with spaces and other characters: the file is stored
    under the sanitized name, and nothing under the title itself. *)
Example render_stores_under_sanitized_name :
  let fs' := fst (RenderProblem joinSlash
                    {| Name := bytes "My problem #1"; Black := [bytes "dd"]; White := [] |}
                    (bytes "out") 200 20 NoFault noFiles) in
  (exists image, fs' (bytes "out/My_problem_1.png") = Some (PNG image))
  /\ fs' (bytes "out/My problem #1.png") = None.
Proof. cbv zeta. split; [eexists; vm_compute; reflexivity | vm_compute; reflexivity]. Qed.

Example sanitize_space : sanitizeFilename (bytes "Example problem") = bytes "Example_problem".
Proof. vm_compute. reflexivity. Qed.

Example sanitize_nothing_left : sanitizeFilename (bytes "?!/.") = bytes "problem".
Proof. vm_compute. reflexivity. Qed.

Example sanitize_empty : sanitizeFilename [] = bytes "problem".
Proof. vm_compute. reflexivity. Qed.

(** A title in UTF-8: the two bytes of "e acute" are dropped. *)
Example sanitize_non_ascii :
  sanitizeFilename (bytes "caf" ++ [ascii_of_nat 195; ascii_of_nat 169] ++ bytes " 1-2")
  = bytes "caf_1-2".
Proof. vm_compute. reflexivity. Qed.

(** C6: loading a file that opens and yields N lines, M of which do
    not parse, appends N - M puzzles, the parses of the other lines in
    the order of the file, logs the M lines it skipped, and returns what
    the scanner reports at the end: nothing on a clean end of file,
    whether or not any puzzle was stored. *)
Theorem load_skips_malformed_lines
        (disk : str -> source) (path : str) (st : loadState)
        (lines : list str) (scanErr : option str) :
  disk path = Opened lines scanErr ->
  exists added skipped,
    LoadProblems disk path st
    = ({| parser := {| Problems := Problems (parser st) ++ added |};
          logged := logged st ++ skipped |},
       option_map ErrIO scanErr)
    /\ map Ok added = map ParseSGFLine (filter parses lines)
    /\ length added = length lines - malformed lines
    /\ map logLine skipped = filter (fun l => negb (parses l)) lines.
Proof.
  intro Hd. exists (parsedOf lines), (skippedOf lines).
  unfold LoadProblems. rewrite Hd, scanLoop_spec.
  split; [reflexivity|].
  split; [apply parsedOf_filter|].
  split; [pose proof (parsedOf_count lines); lia|].
  apply skippedOf_lines.
Qed.

Lemma load_skips_malformed_lines_witness :
  exists added skipped,
    LoadProblems sampleDisk (bytes "problems.sgf") emptyState
    = ({| parser := {| Problems := [] ++ added |}; logged := [] ++ skipped |}, None)
    /\ map Ok added
       = map ParseSGFLine
           (filter parses [bytes "(;AB[aa][bb]AW[cc][dd])"; bytes "invalid line";
                           bytes "(;C[Reorder]AW[dd]AB[cc])"; []])
    /\ length added = 4 - 2
    /\ map logLine skipped = [bytes "invalid line"; []].
Proof.
  apply (load_skips_malformed_lines sampleDisk (bytes "problems.sgf") emptyState
           [bytes "(;AB[aa][bb]AW[cc][dd])"; bytes "invalid line";
            bytes "(;C[Reorder]AW[dd]AB[cc])"; []] None).
  reflexivity.
Defined.

Example load_sample :
  LoadProblems sampleDisk (bytes "problems.sgf") emptyState
  = ({| parser :=
          {| Problems :=
               [ {| Name := []; Black := [bytes "aa"; bytes "bb"];
                    White := [bytes "cc"; bytes "dd"] |};
                 {| Name := bytes "Reorder"; Black := [bytes "cc"];
                    White := [bytes "dd"] |} ] |};
        logged := [ mkLog (bytes "invalid line") ErrNoProperties;
                    mkLog [] ErrNoProperties ] |},
     None).
Proof. vm_compute. reflexivity. Qed.

Example load_all_malformed_is_no_error :
  LoadProblems (fun _ => Opened [bytes "x"; bytes "y"] None) (bytes "f") emptyState
  = ({| parser := {| Problems := [] |};
        logged := [mkLog (bytes "x") ErrNoProperties; mkLog (bytes "y") ErrNoProperties] |},
     None).
Proof. vm_compute. reflexivity. Qed.

(** C10: a load only appends: the puzzles stored before the call are
    a prefix of those stored after it, each at its position, whether the
    call returns an error or not; so a second load adds to the first. *)
Theorem load_only_appends (disk : str -> source) (path : str) (st : loadState) :
  exists added,
    Problems (parser (fst (LoadProblems disk path st))) = Problems (parser st) ++ added
    /\ (forall i prob,
          nth_error (Problems (parser st)) i = Some prob ->
          nth_error (Problems (parser (fst (LoadProblems disk path st)))) i = Some prob)
    /\ forall disk' path',
         exists added',
           Problems (parser (fst (LoadProblems disk' path'
                                    (fst (LoadProblems disk path st)))))
           = (Problems (parser st) ++ added) ++ added'.
Proof.
  assert (Happ : forall d q s0, exists a,
             Problems (parser (fst (LoadProblems d q s0))) = Problems (parser s0) ++ a).
  { intros d q s0. unfold LoadProblems. destruct (d q) as [msg|lines scanErr].
    - exists []. cbn. symmetry. apply app_nil_r.
    - exists (parsedOf lines). rewrite scanLoop_spec. reflexivity. }
  destruct (Happ disk path st) as [added Ha].
  exists added. split; [exact Ha|]. split.
  - intros i prob Hi. rewrite Ha. rewrite nth_error_app1; [exact Hi|].
    apply nth_error_Some. congruence.
  - intros disk' path'.
    destruct (Happ disk' path' (fst (LoadProblems disk path st))) as [added' Ha'].
    exists added'. rewrite Ha'. rewrite Ha. reflexivity.
Qed.

Lemma load_only_appends_witness :
  nth_error
    (Problems (parser (fst (LoadProblems sampleDisk (bytes "problems.sgf")
                              {| parser := {| Problems := [testX] |}; logged := [] |}))))
    0
  = Some testX.
Proof.
  destruct (load_only_appends sampleDisk (bytes "problems.sgf")
              {| parser := {| Problems := [testX] |}; logged := [] |})
    as (added & _ & H & _).
  apply H. reflexivity.
Defined.

Example load_twice_accumulates :
  map Name
    (Problems (parser (fst (LoadProblems sampleDisk (bytes "problems.sgf")
                              (fst (LoadProblems sampleDisk (bytes "problems.sgf")
                                      emptyState))))))
  = [[]; bytes "Reorder"; []; bytes "Reorder"].
Proof. vm_compute. reflexivity. Qed.

Example load_missing_file_keeps_state :
  LoadProblems sampleDisk (bytes "missing.sgf")
    {| parser := {| Problems := [testX] |}; logged := [] |}
  = ({| parser := {| Problems := [testX] |}; logged := [] |},
     Some (ErrIO (bytes "no such file or directory"))).
Proof. vm_compute. reflexivity. Qed.

(** ** Further examples of decoding *)

Example scenario1 :
  ParseSGFLine (bytes "(;AB[cc][cd][dd]AW[dd][de]C[Example problem])")
  = Ok {| Name := bytes "Example problem";
          Black := [bytes "cc"; bytes "cd"; bytes "dd"];
          White := [bytes "dd"; bytes "de"] |}.
Proof. vm_compute. reflexivity. Qed.

Example index1 : sgfToIndex (bytes "zz") = Err (ErrCoordOutOfRange (bytes "zz")).
Proof. vm_compute. reflexivity. Qed.

Example index2 : sgfToIndex (bytes "AA") = Err (ErrCoordOutOfRange (bytes "AA")).
Proof. vm_compute. reflexivity. Qed.

Example index3 : sgfToIndex (bytes "as") = Ok (0, 18)%Z.
Proof. vm_compute. reflexivity. Qed.

(** * Further properties of the parser and the renderer *)

Module MoreParserFacts.
Import Utf8 Scanner RenderSpec LoaderSpec Bytewise Format.
Import Utf8Facts RegexpFacts ParserFacts RenderFacts SanitizeFacts LoaderFacts.

Lemma byteN_of_N (n : N) : (n < 256)%N -> byteN (ascii_of_N n) = n.
Proof. intro H. unfold byteN. apply N_ascii_embedding. exact H. Qed.

Lemma inAS_of_index (x : Z) :
  (0 <= x <= 18)%Z ->
  inAS (ascii_of_N (Z.to_N (97 + x))) = true
  /\ indexOf (ascii_of_N (Z.to_N (97 + x))) = x.
Proof.
  intro H. unfold inAS, within, indexOf.
  rewrite byteN_of_N by lia.
  change (byteN "a") with 97%N. change (byteN "s") with 115%N.
  split.
  - apply andb_true_intro. split; apply N.leb_le; lia.
  - lia.
Qed.

Lemma char_of_index (a : ascii) : ascii_of_N (Z.to_N (97 + indexOf a)) = a.
Proof.
  unfold indexOf.
  replace (Z.to_N (97 + (Z.of_N (byteN a) - 97))) with (byteN a) by lia.
  unfold byteN. apply ascii_N_embedding.
Qed.

Lemma placeStones_exact (cs : list str) (fill : Color) :
  forallb isCoord cs = true ->
  forall dc, placeStones dc cs fill = Ok (draw dc (map (stoneOf fill) cs)).
Proof.
  induction cs as [|c cs IH]; intros H dc.
  - cbn. unfold draw. rewrite app_nil_r. destruct dc; reflexivity.
  - cbn [forallb] in H. apply andb_prop in H. destruct H as [Hc Hcs].
    cbn [placeStones map]. unfold drawStone. rewrite sgfToIndex_spec, Hc.
    rewrite IH by exact Hcs. unfold draw, stoneOf. cbn [width marginOf drawn].
    rewrite <- app_assoc. reflexivity.
Qed.

Lemma spanTo_clean (s x r : str) :
  spanTo s = Some (x, r) -> noChar "]" x = true /\ noChar newline x = true.
Proof.
  revert x r. induction s as [|b t IH]; intros x r H; [discriminate|].
  cbn [spanTo] in H.
  destruct (isChar "]" b) eqn:E1.
  { inversion H; subst. split; reflexivity. }
  destruct (isChar newline b) eqn:E2; [discriminate|].
  destruct (spanTo t) as [[x' r']|]; [|discriminate].
  inversion H; subst.
  destruct (IH x' r eq_refl) as [H1 H2].
  cbn [noChar forallb]. rewrite E1, E2. cbn [negb andb].
  split; assumption.
Qed.

Lemma firstCaption_clean (line x : str) :
  firstCaption line = Some x -> noChar "]" x = true /\ noChar newline x = true.
Proof.
  induction line as [|a s IH]; intro H.
  - cbn in H. discriminate.
  - cbn [firstCaption] in H.
    destruct (captionAt (a :: s)) as [[y r]|] eqn:E.
    + inversion H; subst. unfold captionAt in E.
      destruct s as [|b u]; [discriminate|].
      destruct (isChar "C" a && isChar "[" b); [|discriminate].
      apply (spanTo_clean _ _ _ E).
    + apply IH. exact H.
Qed.

(** *** Positions that start no run and no caption *)

Lemma runAt_other (y c : ascii) (s : str) :
  isChar "A" c = false -> runAt y (c :: s) = [].
Proof.
  intro H. unfold runAt. destruct s as [|b u]; [reflexivity|].
  rewrite H. reflexivity.
Qed.

Lemma runAt_other_marker (y a b : ascii) (s : str) :
  isChar y b = false -> runAt y (a :: b :: s) = [].
Proof.
  intro H. unfold runAt. rewrite H, andb_false_r. reflexivity.
Qed.

Lemma noRunBefore_step (y c : ascii) (n : nat) (s : str) :
  runAt y (c :: s) = [] -> noRunBefore y n s = true ->
  noRunBefore y (S n) (c :: s) = true.
Proof. intros H1 H2. cbn [noRunBefore]. rewrite H1. exact H2. Qed.

Lemma noRunBefore_plain (y : ascii) (pre s : str) :
  Forall (fun c => isChar "A" c = false) pre ->
  noRunBefore y (length pre) (pre ++ s) = true.
Proof.
  induction 1 as [|c pre Hc Hpre IH]; [reflexivity|].
  cbn [length app]. apply noRunBefore_step; [apply runAt_other; exact Hc | exact IH].
Qed.

Lemma captionAt_other (c : ascii) (s : str) :
  isChar "C" c = false -> captionAt (c :: s) = None.
Proof.
  intro H. unfold captionAt. destruct s as [|b u]; [reflexivity|].
  rewrite H. reflexivity.
Qed.

Lemma noCaptionBefore_plain (pre s : str) :
  Forall (fun c => isChar "C" c = false) pre ->
  noCaptionBefore (length pre) (pre ++ s) = true.
Proof.
  induction 1 as [|c pre Hc Hpre IH]; [reflexivity|].
  cbn [length app noCaptionBefore]. rewrite captionAt_other by exact Hc. exact IH.
Qed.

Lemma inAS_lower (P : ascii -> bool) (a : ascii) :
  (forall c, (97 <= byteN c <= 115)%N -> P c = false) ->
  inAS a = true -> P a = false.
Proof.
  intros HP H. apply HP. unfold inAS, within in H.
  apply andb_prop in H. destruct H as [H1 H2].
  apply N.leb_le in H1, H2. exact (conj H1 H2).
Qed.

Lemma isChar_upper (u : ascii) (c : ascii) :
  (byteN u < 97)%N -> (97 <= byteN c <= 115)%N -> isChar u c = false.
Proof.
  intros Hu Hc. unfold isChar. destruct (Ascii.eqb_spec c u) as [->|_]; [lia | reflexivity].
Qed.

(** The text of a run holds no upper-case letter. *)
Lemma groupsText_plain (u : ascii) (cs : list str) :
  (byteN u < 91)%N ->
  forallb isCoord cs = true ->
  Forall (fun c => isChar u c = false) (groupsText cs).
Proof.
  intros Hu H. induction cs as [|c cs IH]; [constructor|].
  cbn [forallb] in H. apply andb_prop in H. destruct H as [Hc Hcs].
  destruct c as [|a [|b [|? ?]]]; try discriminate.
  cbn [isCoord] in Hc. apply andb_prop in Hc. destruct Hc as [Ha Hb].
  cbn [groupsText flat_map bracket app]. fold (groupsText cs).
  assert (Hbr : forall x, (byteN x = 91 \/ byteN x = 93)%N -> isChar u x = false).
  { intros x Hx. unfold isChar. destruct (Ascii.eqb_spec x u) as [->|_]; [lia | reflexivity]. }
  constructor; [apply Hbr; left; reflexivity|].
  constructor; [apply (inAS_lower (isChar u)); [intros; apply isChar_upper; lia | exact Ha]|].
  constructor; [apply (inAS_lower (isChar u)); [intros; apply isChar_upper; lia | exact Hb]|].
  constructor; [apply Hbr; right; reflexivity|].
  apply IH. exact Hcs.
Qed.

Lemma headGroup_other (o : ascii) (s : str) :
  isChar "[" o = false -> headGroup (o :: s) = None.
Proof.
  intro H. unfold headGroup, groupAt.
  destruct s as [|a [|b [|cl t]]]; try reflexivity.
  rewrite H. reflexivity.
Qed.

End MoreParserFacts.

Import Format MoreParserFacts.

(** X1: decoding a coordinate and writing one are inverse: the
    coordinate of a column and a row in [0, 18] decodes to them, and a
    string that decodes to a column and a row is their coordinate. *)
Theorem sgfToIndex_coordOf (c : str) (x y : Z) :
  ((0 <= x <= 18)%Z -> (0 <= y <= 18)%Z -> sgfToIndex (coordOf x y) = Ok (x, y))
  /\ (sgfToIndex c = Ok (x, y) -> c = coordOf x y).
Proof.
  split.
  - intros Hx Hy. rewrite sgfToIndex_spec. unfold coordOf. cbn [isCoord nth].
    destruct (inAS_of_index x Hx) as [-> ->].
    destruct (inAS_of_index y Hy) as [-> ->]. reflexivity.
  - rewrite sgfToIndex_spec. destruct (isCoord c) eqn:E; [|discriminate].
    destruct c as [|a [|b [|? ?]]]; try discriminate.
    cbn [nth]. intro H. inversion H; subst.
    unfold coordOf. rewrite !char_of_index. reflexivity.
Qed.

Lemma sgfToIndex_coordOf_witness :
  sgfToIndex (coordOf 3 15) = Ok (3, 15)%Z /\ bytes "dp" = coordOf 3 15.
Proof.
  split.
  - apply (proj1 (sgfToIndex_coordOf [] 3 15)); lia.
  - apply (proj2 (sgfToIndex_coordOf (bytes "dp") 3 15)). reflexivity.
Defined.

(** X2: a file name made by [sanitizeFilename] is never empty and
    holds only ASCII letters, digits, underscores and hyphens: no path
    separator and no dot, whatever the title. *)
Theorem sanitizeFilename_safe (name : str) :
  sanitizeFilename name <> []
  /\ Forall (fun b => allowed b = true) (sanitizeFilename name)
  /\ ~ In "/"%char (sanitizeFilename name)
  /\ ~ In "\"%char (sanitizeFilename name)
  /\ ~ In "."%char (sanitizeFilename name).
Proof.
  assert (Hall : Forall (fun b => allowed b = true) (sanitizeFilename name)).
  { rewrite sanitizeFilename_bytes.
    destruct (str_eqb (sanitized name) []).
    - repeat constructor.
    - apply sanitized_allowed. }
  assert (Hno : forall c, allowed c = false -> ~ In c (sanitizeFilename name)).
  { intros c Hc Hin. rewrite Forall_forall in Hall. apply Hall in Hin. congruence. }
  split.
  - rewrite sanitizeFilename_bytes. unfold str_eqb.
    destruct (list_eq_dec ascii_dec (sanitized name) []) as [E|E]; [discriminate | exact E].
  - split; [exact Hall|]. repeat split; apply Hno; reflexivity.
Qed.

Example sanitize_path_title :
  sanitizeFilename (bytes "../../etc/passwd") = bytes "etcpasswd".
Proof. vm_compute. reflexivity. Qed.

(** X3: a render whose stones are all coordinates and whose save
    succeeds stores, at the output path and nowhere else, the image of
    the empty board, one stone per black coordinate, then one per white
    coordinate, each at the decoded column and row, and the title. *)
Theorem render_success_image
        (Join : str -> str -> str) (p : GoProblem) (dir : str)
        (size margin : Z) (fs : filesystem) :
  forallb isCoord (Black p ++ White p) = true ->
  let path := Join dir (sanitizeFilename (Name p) ++ bytes ".png") in
  let image :=
    {| width := size; marginOf := margin;
       drawn := emptyBoard
                ++ map (stoneOf ColorBlack) (Black p)
                ++ map (stoneOf ColorWhite) (White p)
                ++ [Label (Name p)] |} in
  RenderProblem Join p dir size margin NoFault fs = (write fs path (PNG image), Ok path)
  /\ write fs path (PNG image) path = Some (PNG image)
  /\ forall q, q <> path -> write fs path (PNG image) q = fs q.
Proof.
  intro H. cbv zeta.
  rewrite forallb_app in H. apply andb_prop in H. destruct H as [Hb Hw].
  split; [|split].
  - unfold RenderProblem. rewrite (placeStones_exact _ _ Hb), (placeStones_exact _ _ Hw).
    unfold SavePNG, outPathOf, draw, emptyBoard. cbn [width marginOf drawn].
    rewrite <- !app_assoc. reflexivity.
  - unfold write, str_eqb.
    destruct (list_eq_dec ascii_dec _ _) as [_|E]; [reflexivity | contradiction].
  - intros q Hq. unfold write, str_eqb.
    destruct (list_eq_dec ascii_dec q _) as [E|_]; [contradiction | reflexivity].
Qed.

Lemma render_success_image_witness :
  fst (RenderProblem joinSlash testX (bytes "out") 200 20 NoFault noFiles)
      (bytes "out/TestX.png")
  = Some (PNG {| width := 200; marginOf := 20;
                 drawn := emptyBoard
                          ++ [Stone 3 3 ColorBlack; Stone 4 4 ColorBlack;
                              Stone 2 2 ColorWhite; Label (bytes "TestX")] |}).
Proof.
  destruct (render_success_image joinSlash testX (bytes "out") 200 20 noFiles eq_refl)
    as (Hr & Hp & _).
  rewrite Hr. exact Hp.
Defined.

(** X4: every puzzle a load stores into an empty parser can be
    rendered: with a working save step the render returns its path. *)
Theorem loaded_problems_render
        (disk : str -> source) (file : str) (prob : GoProblem)
        (Join : str -> str -> str) (dir : str) (size margin : Z) (fs : filesystem) :
  In prob (Problems (parser (fst (LoadProblems disk file emptyState)))) ->
  snd (RenderProblem Join prob dir size margin NoFault fs)
  = Ok (Join dir (sanitizeFilename (Name prob) ++ bytes ".png")).
Proof.
  intro Hin.
  assert (Hvalid : forallb isCoord (Black prob ++ White prob) = true).
  { unfold LoadProblems in Hin. destruct (disk file) as [msg|lines scanErr].
    - cbn in Hin. contradiction.
    - rewrite scanLoop_spec in Hin. cbn [fst parser Problems emptyState app] in Hin.
      unfold parsedOf in Hin. apply in_flat_map in Hin.
      destruct Hin as (l & _ & Hl).
      destruct (ParseSGFLine l) as [q|e] eqn:E; [|contradiction].
      destruct Hl as [->|[]].
      unfold ParseSGFLine in E. rewrite extractCoords_black, extractCoords_white in E.
      destruct (_ && _); [discriminate|].
      inversion E; subst. cbn [Black White].
      rewrite forallb_app, !firstRun_coords. reflexivity. }
  destruct (render_good Join prob dir size margin NoFault fs Hvalid) as [dc ->].
  reflexivity.
Qed.

Lemma loaded_problems_render_witness :
  snd (RenderProblem joinSlash
         {| Name := bytes "Reorder"; Black := [bytes "cc"]; White := [bytes "dd"] |}
         (bytes "out") 800 40 NoFault noFiles)
  = Ok (joinSlash (bytes "out") (sanitizeFilename (bytes "Reorder") ++ bytes ".png")).
Proof.
  apply (loaded_problems_render sampleDisk (bytes "problems.sgf")).
  vm_compute. right. left. reflexivity.
Defined.

Lemma parse_of_parts (line : str) (bs ws : list str) (cap : str) :
  RunOf "B" line bs -> RunOf "W" line ws -> CaptionOf line cap ->
  ParseSGFLine line = Ok {| Name := cap; Black := bs; White := ws |}.
Proof.
  intros Hb Hw Hc. unfold ParseSGFLine.
  rewrite extractCoords_black, extractCoords_white.
  rewrite (extract_RunOf _ _ _ Hb), (extract_RunOf _ _ _ Hw), (extract_CaptionOf _ _ Hc).
  destruct Hb as (_ & _ & _ & Hne & _).
  destruct bs as [|b bs]; [contradiction | reflexivity].
Qed.

(** X5: a record in the usual layout parses back to its parts: for
    non-empty runs of coordinates and a caption without closing bracket
    or newline, [ParseSGFLine] returns exactly these. *)
Theorem record_parses_back (bs ws : list str) (cap : str) :
  bs <> [] -> ws <> [] ->
  forallb isCoord bs = true -> forallb isCoord ws = true ->
  noChar "]" cap = true -> noChar newline cap = true ->
  ParseSGFLine (record bs ws cap) = Ok {| Name := cap; Black := bs; White := ws |}.
Proof.
  intros Hbs Hws Hb Hw Hc1 Hc2.
  assert (HgB : forall u, (byteN u < 91)%N -> Forall (fun c => isChar u c = false) (groupsText bs))
    by (intros; apply groupsText_plain; assumption).
  assert (HgW : forall u, (byteN u < 91)%N -> Forall (fun c => isChar u c = false) (groupsText ws))
    by (intros; apply groupsText_plain; assumption).
  apply parse_of_parts.
  - (* the black run *)
    exists (bytes "(;"), (bytes "AW" ++ groupsText ws ++ bytes "C[" ++ cap ++ bytes "])").
    split; [reflexivity|]. split; [exact Hbs|]. split; [exact Hb|].
    split; [apply headGroup_other; reflexivity|]. reflexivity.
  - (* the white run *)
    exists (bytes "(;AB" ++ groupsText bs), (bytes "C[" ++ cap ++ bytes "])").
    split.
    { unfold record. cbn [bytes list_ascii_of_string app].
      rewrite <- ?app_assoc. reflexivity. }
    split; [exact Hws|]. split; [exact Hw|].
    split; [apply headGroup_other; reflexivity|].
    unfold record. cbn [bytes list_ascii_of_string app length].
    apply noRunBefore_step; [apply runAt_other; reflexivity|].
    apply noRunBefore_step; [apply runAt_other; reflexivity|].
    apply noRunBefore_step; [apply runAt_other_marker; reflexivity|].
    apply noRunBefore_step; [apply runAt_other; reflexivity|].
    apply noRunBefore_plain. apply HgB. reflexivity.
  - (* the caption *)
    exists (bytes "(;AB" ++ groupsText bs ++ bytes "AW" ++ groupsText ws), (bytes ")").
    split.
    { unfold record. cbn [bytes list_ascii_of_string app].
      rewrite <- ?app_assoc. reflexivity. }
    split; [exact Hc1|]. split; [exact Hc2|].
    replace (record bs ws cap)
      with ((bytes "(;AB" ++ groupsText bs ++ bytes "AW" ++ groupsText ws)
              ++ bytes "C[" ++ cap ++ bytes "])").
    2:{ unfold record. cbn [bytes list_ascii_of_string app].
        rewrite <- ?app_assoc. reflexivity. }
    apply noCaptionBefore_plain.
    cbn [bytes list_ascii_of_string app].
    repeat (constructor; [reflexivity|]).
    apply Forall_app. split; [apply HgB; reflexivity|].
    repeat (constructor; [reflexivity|]).
    apply HgW. reflexivity.
Qed.

Lemma record_parses_back_witness :
  ParseSGFLine (bytes "(;AB[cc][cd][dd]AW[dd][de]C[Example problem])")
  = Ok {| Name := bytes "Example problem";
          Black := [bytes "cc"; bytes "cd"; bytes "dd"];
          White := [bytes "dd"; bytes "de"] |}.
Proof.
  apply (record_parses_back [bytes "cc"; bytes "cd"; bytes "dd"]
           [bytes "dd"; bytes "de"] (bytes "Example problem"));
    solve [discriminate | reflexivity].
Defined.

(** X6: the name of a parsed puzzle holds no closing bracket and no
    newline, and a parsed puzzle is never empty in all three parts. *)
Theorem parsed_puzzle_shape (line : str) (p : GoProblem) :
  ParseSGFLine line = Ok p ->
  noChar "]" (Name p) = true
  /\ noChar newline (Name p) = true
  /\ (Black p <> [] \/ White p <> [] \/ Name p <> []).
Proof.
  unfold ParseSGFLine. rewrite extractComment_commentRe.
  destruct (firstCaption line) as [x|] eqn:Ec.
  - destruct (firstCaption_clean _ _ Ec) as [H1 H2].
    destruct (extractCoords blackRunRe line) as [|b bs];
      destruct (extractCoords whiteRunRe line) as [|w ws];
      destruct x as [|c x]; cbn [length Nat.eqb andb str_eqb];
      try discriminate;
      intro H; inversion H; subst; cbn [Name Black White];
      (split; [exact H1 | split; [exact H2|]]);
      solve [left; discriminate | right; left; discriminate | right; right; discriminate].
  - destruct (extractCoords blackRunRe line) as [|b bs];
      destruct (extractCoords whiteRunRe line) as [|w ws];
      cbn [length Nat.eqb andb str_eqb];
      try discriminate;
      intro H; inversion H; subst; cbn [Name Black White];
      (split; [reflexivity | split; [reflexivity|]]);
      solve [left; discriminate | right; left; discriminate].
Qed.

Lemma parsed_puzzle_shape_witness :
  noChar "]" (bytes "a [b") = true
  /\ noChar newline (bytes "a [b") = true
  /\ (@nil str <> [] \/ @nil str <> [] \/ bytes "a [b" <> []).
Proof.
  apply (parsed_puzzle_shape (bytes "C[a [b] c]")
           {| Name := bytes "a [b"; Black := []; White := [] |}).
  vm_compute. reflexivity.
Defined.

(** *** The last element of the output path *)

Lemma dropSlashes_keep (c : ascii) (t : str) :
  isSlash c = false -> dropSlashes (c :: t) = c :: t.
Proof. intro H. cbn. rewrite H. reflexivity. Qed.

Lemma untilSlash_app (f r : str) :
  Forall (fun c => isSlash c = false) f ->
  untilSlash (f ++ "/" :: r) = f.
Proof.
  induction 1 as [|c f Hc Hf IH]; [reflexivity|].
  cbn [app untilSlash]. rewrite Hc, IH. reflexivity.
Qed.

Lemma Base_last (dir f : str) :
  f <> [] -> Forall (fun c => isSlash c = false) f ->
  Base (dir ++ "/" :: f) = f.
Proof.
  intros Hne Hf. unfold Base.
  assert (E1 : str_eqb (dir ++ "/" :: f) [] = false).
  { unfold str_eqb. destruct (list_eq_dec ascii_dec _ _) as [E|_]; [|reflexivity].
    destruct dir; discriminate. }
  rewrite E1. rewrite rev_app_distr. cbn [rev]. rewrite <- app_assoc. cbn [app].
  assert (Hr : Forall (fun c => isSlash c = false) (rev f)).
  { rewrite Forall_forall in *. intros c Hc. apply Hf. apply in_rev. exact Hc. }
  destruct (rev f) as [|c t] eqn:E.
  { exfalso. apply Hne. rewrite <- (rev_involutive f), E. reflexivity. }
  inversion Hr; subst.
  change ((c :: t) ++ "/"%char :: rev dir) with (c :: (t ++ "/"%char :: rev dir)).
  rewrite dropSlashes_keep by assumption.
  change (c :: (t ++ "/"%char :: rev dir)) with ((c :: t) ++ "/"%char :: rev dir).
  rewrite untilSlash_app by (constructor; assumption).
  rewrite <- E, rev_involutive.
  unfold str_eqb. destruct (list_eq_dec ascii_dec f []); [contradiction | reflexivity].
Qed.

Lemma allowed_not_slash (c : ascii) : allowed c = true -> isSlash c = false.
Proof.
  intro H. unfold isSlash. destruct (Ascii.eqb_spec c "/") as [->|_]; [discriminate | reflexivity].
Qed.

(** X7: whatever the title and the directory, the last element of
    the path [dir/name.png] of a rendered image is the sanitized title
    followed by ".png": a title cannot move the file out of the
    directory. *)
Theorem output_file_stays_in_directory (dir name : str) :
  Base (dir ++ "/" :: sanitizeFilename name ++ bytes ".png")
  = sanitizeFilename name ++ bytes ".png".
Proof.
  apply Base_last.
  - destruct (sanitizeFilename name); discriminate.
  - apply Forall_app. split.
    + assert (Hall : Forall (fun b => allowed b = true) (sanitizeFilename name)).
      { rewrite sanitizeFilename_bytes.
        destruct (str_eqb (sanitized name) []).
        - repeat constructor.
        - apply sanitized_allowed. }
      eapply Forall_impl; [|exact Hall]. apply allowed_not_slash.
    + repeat constructor.
Qed.

Example base_examples :
  Base [] = bytes "." /\ Base (bytes "///") = bytes "/"
  /\ Base (bytes "out/TestX.png") = bytes "TestX.png"
  /\ Base (bytes "out/dir/") = bytes "dir".
Proof. vm_compute. repeat split. Qed.

(** * Properties of the daily settings and of the command handlers *)

Module RepoFacts.
Import Repo.

Lemma str_eqb_refl (a : str) : str_eqb a a = true.
Proof. unfold str_eqb. destruct (list_eq_dec ascii_dec a a); [reflexivity | contradiction]. Qed.

Lemma str_eqb_neq (a b : str) : a <> b -> str_eqb a b = false.
Proof. intro H. unfold str_eqb. destruct (list_eq_dec ascii_dec a b); [contradiction | reflexivity]. Qed.

Lemma str_eqb_eq (a b : str) : str_eqb a b = true -> a = b.
Proof. unfold str_eqb. destruct (list_eq_dec ascii_dec a b); [auto | discriminate]. Qed.

Lemma upsert_same (t : table) (g c h : str) : upsert t g c h g = Some (c, h).
Proof. unfold upsert. rewrite str_eqb_refl. reflexivity. Qed.

Lemma upsert_other (t : table) (g c h g' : str) : g' <> g -> upsert t g c h g' = t g'.
Proof. intro H. unfold upsert. rewrite str_eqb_neq by exact H. reflexivity. Qed.

End RepoFacts.

Import Repo RepoFacts.

(** X8: what [SetConfig] stores is what [GetConfig] returns: after
    a successful set, the settings of the guild are the channel and the
    time just given, whatever was stored before, so of two sets the
    later one is the one read back. *)
Theorem set_then_get (t : table) (g c h c' h' : str) :
  GetConfig None g (fst (SetConfig None g c h t))
  = Found {| GuildID := g; ChannelID := c; TimeHHMM := h |}
  /\ GetConfig None g (fst (SetConfig None g c' h' (fst (SetConfig None g c h t))))
     = Found {| GuildID := g; ChannelID := c'; TimeHHMM := h' |}.
Proof.
  unfold GetConfig, SetConfig. cbn [fst]. rewrite !upsert_same. split; reflexivity.
Qed.

(** X9: a set touches the row of its guild only, and a failed set
    touches nothing: the settings read for any other guild, and for
    every guild after a failure, are those read before. *)
Theorem set_keeps_other_guilds (t : table) (fault fault' : option str) (g c h g' : str) :
  (g' <> g ->
   GetConfig fault' g' (fst (SetConfig fault g c h t)) = GetConfig fault' g' t)
  /\ (fault <> None -> fst (SetConfig fault g c h t) = t).
Proof.
  split.
  - intro Hne. unfold GetConfig, SetConfig.
    destruct fault; cbn [fst]; [reflexivity|].
    rewrite upsert_other by exact Hne. reflexivity.
  - intro Hf. unfold SetConfig. destruct fault; [reflexivity | contradiction].
Qed.

Lemma set_keeps_other_guilds_witness :
  GetConfig None (bytes "guild-2")
    (fst (SetConfig None (bytes "guild-1") (bytes "c1") (bytes "09:00")
            (upsert noRows (bytes "guild-2") (bytes "c2") (bytes "18:30"))))
  = Found {| GuildID := bytes "guild-2"; ChannelID := bytes "c2"; TimeHHMM := bytes "18:30" |}.
Proof.
  rewrite (proj1 (set_keeps_other_guilds
                    (upsert noRows (bytes "guild-2") (bytes "c2") (bytes "18:30"))
                    None None (bytes "guild-1") (bytes "c1") (bytes "09:00")
                    (bytes "guild-2"))).
  - reflexivity.
  - discriminate.
Defined.

(** X10: [GetConfig] hands back the bare [sql.ErrNoRows] exactly when
    the statement runs and the guild has no row; every other failure
    is wrapped, and a row is always found when there is one. *)
Theorem get_config_outcomes (fault : option str) (g : str) (t : table) :
  (GetConfig fault g t = Failure ErrNoRows <-> fault = None /\ t g = None)
  /\ (forall e, GetConfig fault g t = Failure e ->
        e = ErrNoRows \/ exists msg, e = Wrapped (bytes "failed to get config") (DriverError msg))
  /\ (forall c h, fault = None -> t g = Some (c, h) ->
        GetConfig fault g t = Found {| GuildID := g; ChannelID := c; TimeHHMM := h |}).
Proof.
  unfold GetConfig. split; [|split].
  - destruct fault as [msg|].
    + split; [discriminate | intros [H _]; discriminate].
    + destruct (t g) as [[c h]|].
      * split; [discriminate | intros [_ H]; discriminate].
      * split; [intros _; split; reflexivity | reflexivity].
  - intros e H. destruct fault as [msg|].
    + inversion H. right. exists msg. reflexivity.
    + destruct (t g) as [[c h]|]; inversion H. left. reflexivity.
  - intros c h -> ->. reflexivity.
Qed.

Lemma get_config_outcomes_witness :
  GetConfig None (bytes "guild-1") noRows = Failure ErrNoRows.
Proof.
  apply (proj1 (get_config_outcomes None (bytes "guild-1") noRows)).
  split; reflexivity.
Defined.

Module BotFacts.
Import Bot BotSpec.

Lemma quot_day (n d : Z) :
  (0 <= n)%Z -> (0 <= d < 86400)%Z -> Z.quot (86400 * n + d) 86400 = n.
Proof.
  intros Hn Hd. rewrite Z.quot_div_nonneg by lia.
  symmetry. apply (Z.div_unique _ _ n d); lia.
Qed.

Lemma dailyIndex_bound (unix : Z) (count : nat) :
  (0 <= unix)%Z -> (0 < count)%nat ->
  (0 <= dailyIndex unix count < Z.of_nat count)%Z.
Proof.
  intros Hu Hc. unfold dailyIndex.
  apply Z.rem_bound_pos; [|lia].
  apply Z.quot_pos; lia.
Qed.

Lemma trace_emit (e : event) (w : World) : trace (emit e w) = trace w ++ [e].
Proof. reflexivity. Qed.

Lemma trace_respond (m : text) (w : World) :
  trace (respond m w) = trace w ++ [Responded (Message m false)].
Proof. reflexivity. Qed.

Lemma trace_respondError (m : text) (w : World) :
  trace (respondError m w) = trace w ++ [Logged m; Responded (Message m false)].
Proof. unfold respondError. rewrite trace_respond, trace_emit, <- app_assoc. reflexivity. Qed.



Lemma staffIDOf_fold (roles : list Role) (acc : str) :
  Forall (fun r => isStaffRole r = false) roles ->
  fold_left (fun staffID role =>
               if str_eqb (RoleName role) (bytes "Staff") then RoleID role else staffID)
            roles acc = acc.
Proof.
  intro H. revert acc. induction H as [|r roles Hr Hroles IH]; intro acc; [reflexivity|].
  cbn [fold_left]. unfold isStaffRole in Hr. rewrite Hr. apply IH.
Qed.

End BotFacts.

Import Bot BotSpec BotFacts.

(** X11: on day [n] after the epoch, at any second of the day, the
    index of the daily problem is [n] modulo the number of problems: the
    same problem all day, the next one the day after, round and round. *)
Theorem daily_index_of_day (n d : Z) (count : nat) :
  (0 <= n)%Z -> (0 <= d < 86400)%Z -> (0 < count)%nat ->
  dailyIndex (86400 * n + d) count = (n mod Z.of_nat count)%Z.
Proof.
  intros Hn Hd Hc. unfold dailyIndex. rewrite quot_day by assumption.
  apply Z.rem_mod_nonneg; lia.
Qed.

Lemma daily_index_of_day_witness : dailyIndex (86400 * 20000 + 3600) 3 = 2%Z.
Proof.
  change 2%Z with (20000 mod Z.of_nat 3)%Z.
  apply daily_index_of_day; lia.
Defined.

(** X12: with a clock at or after the epoch and at least one problem
    loaded, the index of the day is in range: the handler finds a
    problem of the collection and does not panic on the lookup. *)
Theorem daily_problem_exists (unix : Z) (problems : list GoProblem) :
  (0 <= unix)%Z -> problems <> [] ->
  exists prob,
    index problems (dailyIndex unix (length problems)) = Some prob /\ In prob problems.
Proof.
  intros Hu Hne.
  assert (Hc : (0 < length problems)%nat) by (destruct problems; [contradiction | cbn; lia]).
  pose proof (dailyIndex_bound unix (length problems) Hu Hc) as Hb.
  unfold index.
  destruct (Z.ltb_spec (dailyIndex unix (length problems)) 0) as [Hneg|_]; [lia|].
  destruct (nth_error problems (Z.to_nat (dailyIndex unix (length problems)))) as [prob|] eqn:E.
  - exists prob. split; [reflexivity|]. eapply nth_error_In. exact E.
  - apply nth_error_None in E. lia.
Qed.

Lemma daily_problem_exists_witness :
  exists prob,
    index (Problems Samples.loadedParser)
          (dailyIndex (86400 * 20000 + 3600) (length (Problems Samples.loadedParser)))
    = Some prob
    /\ In prob (Problems Samples.loadedParser).
Proof.
  apply daily_problem_exists; [lia | vm_compute; discriminate].
Defined.

Lemma render_daily (env : Env) (prob : GoProblem) (fs : filesystem) :
  forallb Scanner.isCoord (Black prob ++ White prob) = true ->
  RenderProblem (pathJoin env) prob (bytes "./out") 800 40 NoFault fs
  = (write fs (dailyPath env prob) (PNG (dailyImage prob)), Ok (dailyPath env prob)).
Proof.
  intro H. rewrite forallb_app in H. apply andb_prop in H. destruct H as [Hb Hw].
  unfold RenderProblem.
  rewrite (placeStones_exact _ _ Hb), (placeStones_exact _ _ Hw).
  unfold SavePNG, outPathOf, draw, dailyImage, dailyPath, emptyBoard.
  cbn [width marginOf drawn]. rewrite <- !app_assoc. reflexivity.
Qed.

(** X13: the daily command, run in a main channel by a member of the
    guild when every call succeeds, creates the member's thread,
    acknowledges, renders the problem of the day and sends that image
    to the thread under the last element of its path; nothing else
    happens and the settings are untouched. *)
Theorem daily_posts_problem_of_the_day
        (env : Env) (i : Interaction) (pg : GoParser) (w : World)
        (member : Member) (thread : str) (prob : GoProblem) :
  channelOf env (ChannelID i) = Some false ->
  InGuild i = Some member ->
  threadStart env (ChannelID i) (threadNameOf member) = Some thread ->
  index (Problems pg) (dailyIndex (now env) (length (Problems pg))) = Some prob ->
  forallb Scanner.isCoord (Black prob ++ White prob) = true ->
  saveFaultOf env = NoFault -> openErr env = None -> sendErr env = None ->
  handleDaily env i pg w
  = ({| trace := trace w
                 ++ [ThreadStarted thread (ChannelID i) (threadNameOf member);
                     threadCreated;
                     FileSent thread (Base (dailyPath env prob)) (PNG (dailyImage prob))];
        db := db w;
        files := write (files w) (dailyPath env prob) (PNG (dailyImage prob)) |},
     Returned).
Proof.
  intros Hch Hm Hth Hidx Hvalid Hsave Hopen Hsend.
  unfold handleDaily. rewrite Hch, Hm.
  fold (threadNameOf member). rewrite Hth.
  destruct (length (Problems pg) =? 0)%nat eqn:Ec.
  { apply Nat.eqb_eq in Ec. destruct (Problems pg); [|discriminate].
    unfold index in Hidx. destruct (_ <? _)%Z; [discriminate|].
    destruct (Z.to_nat _); discriminate. }
  rewrite Hidx, Hsave. cbn [files respond emit].
  rewrite (render_daily env prob (files w) Hvalid).
  rewrite Hopen, Hsend.
  assert (Hw : write (files w) (dailyPath env prob) (PNG (dailyImage prob)) (dailyPath env prob)
               = Some (PNG (dailyImage prob))).
  { unfold write. rewrite RepoFacts.str_eqb_refl. reflexivity. }
  rewrite Hw. unfold respond, emit, threadCreated. cbn [trace db files].
  rewrite <- !app_assoc. reflexivity.
Qed.

Lemma daily_posts_problem_of_the_day_witness :
  trace (fst (handleDaily Samples.calmEnv (Samples.commandOf (bytes "daily") Samples.alice)
                Samples.loadedParser Samples.freshWorld))
  = [ThreadStarted (bytes "thread-1") (bytes "chan-1") (bytes "alice's Daily Thread");
     threadCreated;
     FileSent (bytes "thread-1") (bytes "problem.png")
       (PNG (dailyImage {| Name := []; Black := [bytes "aa"; bytes "bb"];
                           White := [bytes "cc"; bytes "dd"] |}))].
Proof.
  rewrite (daily_posts_problem_of_the_day Samples.calmEnv
             (Samples.commandOf (bytes "daily") Samples.alice)
             Samples.loadedParser Samples.freshWorld Samples.alice (bytes "thread-1")
             {| Name := []; Black := [bytes "aa"; bytes "bb"];
                White := [bytes "cc"; bytes "dd"] |});
    reflexivity.
Defined.

(** X14: the daily command sends a file only at the end of the whole
    chain: if its run adds a sent file to the trace, then the channel was
    a main channel, a thread was started for it, and the file is the
    one a successful render of the problem of the day left at the
    returned path, sent to that thread under the last element of the
    path. *)
Theorem daily_sends_only_rendered_image
        (env : Env) (i : Interaction) (pg : GoParser) (w w' : World) (st : status)
        (thread name : str) (content : file) :
  handleDaily env i pg w = (w', st) ->
  In (FileSent thread name content) (trace w') ->
  ~ In (FileSent thread name content) (trace w) ->
  channelOf env (ChannelID i) = Some false
  /\ exists member prob path,
       InGuild i = Some member
       /\ threadStart env (ChannelID i) (threadNameOf member) = Some thread
       /\ index (Problems pg) (dailyIndex (now env) (length (Problems pg))) = Some prob
       /\ RenderProblem (pathJoin env) prob (bytes "./out") 800 40
                        (saveFaultOf env) (files w) = (files w', Ok path)
       /\ files w' path = Some content
       /\ name = Base path.
Proof.
  intros H Hin Hnew. unfold handleDaily in H.
  repeat match type of H with
         | context [match ?x with _ => _ end] => destruct x eqn:?
         end;
    inversion H; subst; clear H;
    try (exfalso; apply Hnew;
         unfold respondError, respond, emit in Hin; cbn [trace] in Hin;
         repeat (apply in_app_or in Hin; destruct Hin as [Hin|Hin];
                 [|cbn [In] in Hin; destruct Hin as [Hin|[]]; discriminate]);
         exact Hin).
  unfold respondError, respond, emit in Hin; cbn [trace] in Hin.
  apply in_app_or in Hin. destruct Hin as [Hin|Hin].
  - exfalso. apply Hnew.
    repeat (apply in_app_or in Hin; destruct Hin as [Hin|Hin];
            [|cbn [In] in Hin; destruct Hin as [Hin|[]]; discriminate]).
    exact Hin.
  - cbn [In] in Hin. destruct Hin as [Hin|[]]. inversion Hin; subst.
    split; [reflexivity|].
    eexists _, _, _. cbn [files].
    repeat split; try eassumption; reflexivity.
Qed.

Lemma daily_sends_only_rendered_image_witness :
  channelOf Samples.calmEnv (ChannelID (Samples.commandOf (bytes "daily") Samples.alice))
  = Some false
  /\ exists member prob path,
       InGuild (Samples.commandOf (bytes "daily") Samples.alice) = Some member
       /\ threadStart Samples.calmEnv
            (ChannelID (Samples.commandOf (bytes "daily") Samples.alice))
            (threadNameOf member) = Some (bytes "thread-1")
       /\ index (Problems Samples.loadedParser)
            (dailyIndex (now Samples.calmEnv) (length (Problems Samples.loadedParser)))
          = Some prob
       /\ RenderProblem (pathJoin Samples.calmEnv) prob (bytes "./out") 800 40
            (saveFaultOf Samples.calmEnv) (files Samples.freshWorld)
          = (files (fst (handleDaily Samples.calmEnv
                           (Samples.commandOf (bytes "daily") Samples.alice)
                           Samples.loadedParser Samples.freshWorld)), Ok path)
       /\ files (fst (handleDaily Samples.calmEnv
                        (Samples.commandOf (bytes "daily") Samples.alice)
                        Samples.loadedParser Samples.freshWorld)) path
          = Some (PNG (dailyImage {| Name := []; Black := [bytes "aa"; bytes "bb"];
                                     White := [bytes "cc"; bytes "dd"] |}))
       /\ bytes "problem.png" = Base path.
Proof.
  apply (daily_sends_only_rendered_image Samples.calmEnv
           (Samples.commandOf (bytes "daily") Samples.alice)
           Samples.loadedParser Samples.freshWorld
           (fst (handleDaily Samples.calmEnv
                   (Samples.commandOf (bytes "daily") Samples.alice)
                   Samples.loadedParser Samples.freshWorld))
           (snd (handleDaily Samples.calmEnv
                   (Samples.commandOf (bytes "daily") Samples.alice)
                   Samples.loadedParser Samples.freshWorld))
           (bytes "thread-1") (bytes "problem.png")).
  - apply surjective_pairing.
  - right. right. left. reflexivity.
  - intros [].
Defined.

(** X15: the daily command creates and acknowledges the thread
    before it looks at the problems: with no problem loaded the member
    still gets a thread and the acknowledgement, followed by the
    message that no problem is available; nothing is rendered. *)
Theorem daily_without_problems
        (env : Env) (i : Interaction) (pg : GoParser) (w : World)
        (member : Member) (thread : str) :
  channelOf env (ChannelID i) = Some false ->
  InGuild i = Some member ->
  threadStart env (ChannelID i) (threadNameOf member) = Some thread ->
  Problems pg = [] ->
  handleDaily env i pg w
  = ({| trace := trace w
                 ++ [ThreadStarted thread (ChannelID i) (threadNameOf member);
                     threadCreated;
                     Logged (Plain (bytes "no problems available"));
                     Responded (Message (Plain (bytes "no problems available")) false)];
        db := db w;
        files := files w |},
     Returned).
Proof.
  intros Hch Hm Hth Hp. unfold handleDaily. rewrite Hch, Hm.
  fold (threadNameOf member). rewrite Hth, Hp. cbn [length Nat.eqb].
  unfold respondError, respond, emit, threadCreated. cbn [trace db files].
  rewrite <- !app_assoc. reflexivity.
Qed.

Lemma daily_without_problems_witness :
  trace (fst (handleDaily Samples.calmEnv (Samples.commandOf (bytes "daily") Samples.bob)
                {| Problems := [] |} Samples.freshWorld))
  = [ThreadStarted (bytes "thread-1") (bytes "chan-1") (bytes "bob's Daily Thread");
     threadCreated;
     Logged (Plain (bytes "no problems available"));
     Responded (Message (Plain (bytes "no problems available")) false)].
Proof.
  rewrite (daily_without_problems Samples.calmEnv
             (Samples.commandOf (bytes "daily") Samples.bob)
             {| Problems := [] |} Samples.freshWorld Samples.bob (bytes "thread-1"));
    reflexivity.
Defined.

(** X16: the staff role is the last role of the guild named "Staff":
    earlier roles of that name do not count, and without such a role
    the staff ID is the empty string. *)
Theorem staff_role_is_last_named (before after : list Role) (r : Role) :
  (isStaffRole r = true ->
   Forall (fun x => isStaffRole x = false) after ->
   staffIDOf (before ++ r :: after) = RoleID r)
  /\ (Forall (fun x => isStaffRole x = false) after -> staffIDOf after = []).
Proof.
  split.
  - intros Hr Hafter. unfold staffIDOf. rewrite fold_left_app. cbn [fold_left].
    unfold isStaffRole in Hr. rewrite Hr. apply staffIDOf_fold. exact Hafter.
  - intro Hafter. unfold staffIDOf. apply staffIDOf_fold. exact Hafter.
Qed.

Lemma staff_role_is_last_named_witness :
  staffIDOf ([mkRole (bytes "Staff") (bytes "r-old")]
               ++ mkRole (bytes "Staff") (bytes "r-staff")
               :: [mkRole (bytes "Everyone") (bytes "r-all")])
  = bytes "r-staff"
  /\ staffIDOf [mkRole (bytes "Everyone") (bytes "r-all")] = [].
Proof.
  split.
  - apply (proj1 (staff_role_is_last_named [mkRole (bytes "Staff") (bytes "r-old")]
                    [mkRole (bytes "Everyone") (bytes "r-all")]
                    (mkRole (bytes "Staff") (bytes "r-staff")))).
    + reflexivity.
    + repeat constructor.
  - apply (proj2 (staff_role_is_last_named [] [mkRole (bytes "Everyone") (bytes "r-all")]
                    (mkRole (bytes "Staff") (bytes "r-staff")))).
    repeat constructor.
Defined.





(** The same member when the database is down: the database error,
    before any role is looked at. *)
Example edit_with_database_down :
  trace (fst (handleEditDaily
                {| now := 0; pathJoin := joinSlash; channelOf := fun _ => Some false;
                   threadStart := fun _ _ => None;
                   guildRoles := fun _ => Some [mkRole (bytes "Staff") (bytes "r-staff")];
                   respondErr := fun _ => None; saveFaultOf := NoFault; openErr := None;
                   sendErr := None; dbFault := Some (bytes "database is locked");
                   createErr := fun _ => None |}
                (Samples.commandOf (bytes "edit_daily") Samples.bob) Samples.freshWorld))
  = [Logged (WithError (bytes "error occured retreiving settings from db: ")
               (DbFailure (Repo.Wrapped (bytes "failed to get config")
                                        (Repo.DriverError (bytes "database is locked")))));
     Responded (Message
                  (WithError (bytes "error occured retreiving settings from db: ")
                     (DbFailure (Repo.Wrapped (bytes "failed to get config")
                                              (Repo.DriverError (bytes "database is locked")))))
                  false)].
Proof. vm_compute. reflexivity. Qed.

Lemma submit_stores (env : Env) (i : Interaction) (w : World)
      (cid : str) (comps : list component) (tv cv : str) :
  Data i = ModalSubmit cid comps ->
  HasPrefix cid (bytes "edit_daily") = true ->
  textValue comps 0 = Some tv -> textValue comps 1 = Some cv ->
  dbFault env = None ->
  snd (handleModalSubmit env i w) = Returned
  /\ db (fst (handleModalSubmit env i w)) = Repo.upsert (db w) (GuildID i) cv tv
  /\ files (fst (handleModalSubmit env i w)) = files w.
Proof.
  intros Hd Hp Ht Hc Hdb. unfold handleModalSubmit.
  rewrite Hd, Hp, Ht, Hc, Hdb. cbn [negb Repo.SetConfig fst snd db files].
  destruct (respondErr env _); repeat split; reflexivity.
Qed.

(** X19: a submitted form is stored as it is: for a form whose ID
    begins with "edit_daily", holding a time and a channel, the row of
    the guild of the interaction becomes exactly that channel and that
    time, whatever they are; no check is made on either. *)
Theorem submit_stores_verbatim (env : Env) (i : Interaction) (w : World)
        (cid : str) (comps : list component) (tv cv : str) :
  Data i = ModalSubmit cid comps ->
  HasPrefix cid (bytes "edit_daily") = true ->
  textValue comps 0 = Some tv -> textValue comps 1 = Some cv ->
  dbFault env = None ->
  snd (handleModalSubmit env i w) = Returned
  /\ Repo.GetConfig None (GuildID i) (db (fst (handleModalSubmit env i w)))
     = Repo.Found {| Repo.GuildID := GuildID i; Repo.ChannelID := cv; Repo.TimeHHMM := tv |}.
Proof.
  intros Hd Hp Ht Hc Hdb.
  destruct (submit_stores env i w cid comps tv cv Hd Hp Ht Hc Hdb) as (Hs & Hdb' & _).
  split; [exact Hs|]. rewrite Hdb'. unfold Repo.GetConfig.
  rewrite upsert_same. reflexivity.
Qed.

Lemma submit_stores_verbatim_witness :
  Repo.GetConfig None (bytes "guild-1")
    (db (fst (handleModalSubmit Samples.calmEnv
                (Samples.submitOf (bytes "not a time") (bytes "#nowhere") Samples.bob)
                Samples.freshWorld)))
  = Repo.Found {| Repo.GuildID := bytes "guild-1"; Repo.ChannelID := bytes "#nowhere";
                  Repo.TimeHHMM := bytes "not a time" |}.
Proof.
  apply (submit_stores_verbatim Samples.calmEnv
           (Samples.submitOf (bytes "not a time") (bytes "#nowhere") Samples.bob)
           Samples.freshWorld (bytes "edit_daily")
           [ActionsRow [TextInput (bytes "daily-time") (bytes "not a time")];
            ActionsRow [TextInput (bytes "daily-channel") (bytes "#nowhere")]]);
    reflexivity.
Defined.



(** X21: a form submission is acknowledged first, whatever form it
    is, and can only change the settings of the guild it comes from: the
    rows of all other guilds and the files stay as they were, and a form
    whose ID does not begin with "edit_daily" changes no row at all. *)
Theorem submit_touches_own_guild_only
        (env : Env) (i : Interaction) (w w' : World) (st : status) :
  handleModalSubmit env i w = (w', st) ->
  (exists added,
     trace w' = trace w
                ++ Responded (Message (Plain (bytes "Saving updated time")) true) :: added)
  /\ files w' = files w
  /\ (forall g, g <> GuildID i -> db w' g = db w g)
  /\ (forall cid comps,
        Data i = ModalSubmit cid comps ->
        HasPrefix cid (bytes "edit_daily") = false -> db w' = db w).
Proof.
  intro H. unfold handleModalSubmit in H.
  assert (Hup : forall (fault : option str) c h t t' r g,
             Repo.SetConfig fault (GuildID i) c h t = (t', r) ->
             g <> GuildID i -> t' g = t g).
  { intros fault c h t t' r g Hs Hg. unfold Repo.SetConfig in Hs.
    destruct fault; inversion Hs; subst; [reflexivity|].
    apply upsert_other. exact Hg. }
  assert (Hack : forall v : World,
             trace v = trace w -> db v = db w -> files v = files w ->
             exists v0 : list event,
               trace (match respondErr env (Message (Plain (bytes "Saving updated time")) true) with
                      | Some _ => respondError (Plain (bytes "error saving updated time"))
                                    (emit (Responded (Message (Plain (bytes "Saving updated time")) true)) v)
                      | None => emit (Responded (Message (Plain (bytes "Saving updated time")) true)) v
                      end)
               = trace w ++ Responded (Message (Plain (bytes "Saving updated time")) true) :: v0).
  { intros v Ht _ _. destruct (respondErr env _);
      unfold respondError, respond, emit; cbn [trace]; rewrite Ht;
      rewrite <- ?app_assoc; eexists; reflexivity. }
  remember (match respondErr env (Message (Plain (bytes "Saving updated time")) true) with
            | Some _ => respondError (Plain (bytes "error saving updated time"))
                          (emit (Responded (Message (Plain (bytes "Saving updated time")) true)) w)
            | None => emit (Responded (Message (Plain (bytes "Saving updated time")) true)) w
            end) as wa eqn:Ewa.
  assert (Hwa : (exists a0, trace wa = trace w
                   ++ Responded (Message (Plain (bytes "Saving updated time")) true) :: a0)
                /\ db wa = db w /\ files wa = files w).
  { subst wa. split; [apply (Hack w); reflexivity|].
    destruct (respondErr env _); split; reflexivity. }
  clear Ewa Hack. destruct Hwa as ((a0 & Hta) & Hda & Hfa).
  assert (Hext : forall more, exists added,
             trace wa ++ more
             = trace w ++ Responded (Message (Plain (bytes "Saving updated time")) true) :: added).
  { intro more. exists (a0 ++ more). rewrite Hta, <- app_assoc. reflexivity. }
  destruct (Data i) as [name|cid comps|] eqn:Ed.
  - inversion H; subst; clear H.
    split; [exists a0; exact Hta|]. split; [exact Hfa|].
    split; [intros; rewrite Hda; reflexivity | intros; discriminate].
  - destruct (negb (HasPrefix cid (bytes "edit_daily"))) eqn:Ep.
    + inversion H; subst; clear H.
      split; [exists a0; exact Hta|]. split; [exact Hfa|].
      split; [intros; rewrite Hda; reflexivity | intros; exact Hda].
    + assert (Hpre : forall cid' comps', ModalSubmit cid comps = ModalSubmit cid' comps' ->
                       HasPrefix cid' (bytes "edit_daily") = false -> False).
      { intros cid' comps' Hc Hp. inversion Hc; subst.
        apply negb_false_iff in Ep. congruence. }
      destruct (textValue comps 0) as [tv|].
      2:{ inversion H; subst; clear H.
          split; [exists a0; exact Hta|]. split; [exact Hfa|].
          split; [intros; rewrite Hda; reflexivity | intros; exact Hda]. }
      destruct (textValue comps 1) as [cv|].
      2:{ inversion H; subst; clear H.
          split; [exists a0; exact Hta|]. split; [exact Hfa|].
          split; [intros; rewrite Hda; reflexivity | intros; exact Hda]. }
      cbn [db emit] in H.
      destruct (Repo.SetConfig (dbFault env) (GuildID i) cv tv (db wa)) as [t [e|]] eqn:Es;
        inversion H; subst; clear H;
        unfold respondError, respond, emit; cbn [trace db files];
        (split; [rewrite <- ?app_assoc; apply Hext|]);
        (split; [exact Hfa|]);
        (split; [intros g Hg; rewrite (Hup _ _ _ _ _ _ g Es Hg); rewrite Hda; reflexivity
                | intros cid' comps' Hc Hp; exfalso; exact (Hpre cid' comps' Hc Hp)]).
  - inversion H; subst; clear H.
    split; [exists a0; exact Hta|]. split; [exact Hfa|].
    split; [intros; rewrite Hda; reflexivity | intros; discriminate].
Qed.

Lemma submit_touches_own_guild_only_witness :
  files (fst (handleModalSubmit Samples.calmEnv
                (Samples.submitOf (bytes "09:30") (bytes "chan-9") Samples.alice)
                Samples.freshWorld))
  = files Samples.freshWorld
  /\ db (fst (handleModalSubmit Samples.calmEnv
                (Samples.submitOf (bytes "09:30") (bytes "chan-9") Samples.alice)
                Samples.freshWorld)) (bytes "guild-2")
     = db Samples.freshWorld (bytes "guild-2").
Proof.
  destruct (submit_touches_own_guild_only Samples.calmEnv
              (Samples.submitOf (bytes "09:30") (bytes "chan-9") Samples.alice)
              Samples.freshWorld
              (fst (handleModalSubmit Samples.calmEnv
                      (Samples.submitOf (bytes "09:30") (bytes "chan-9") Samples.alice)
                      Samples.freshWorld))
              (snd (handleModalSubmit Samples.calmEnv
                      (Samples.submitOf (bytes "09:30") (bytes "chan-9") Samples.alice)
                      Samples.freshWorld))
              (surjective_pairing _))
    as (_ & Hf & Hg & _).
  split; [exact Hf|]. apply Hg. discriminate.
Defined.

(** X22: registering the commands tries all three, in order, each
    exactly once: a command that cannot be created leaves a log line and
    the next ones are registered all the same. *)
Theorem register_tries_every_command (env : Env) (appID guildID : str) (w : World) :
  registerCommands env appID guildID w
  = {| trace := trace w ++ map (registered env appID guildID) commandNames;
       db := db w; files := files w |}.
Proof.
  unfold registerCommands, commandNames, registered. cbn [fold_left map].
  destruct (createErr env (bytes "test"));
    destruct (createErr env (bytes "daily"));
    destruct (createErr env (bytes "edit_daily"));
    unfold emit; cbn [trace db files]; rewrite <- !app_assoc; reflexivity.
Qed.

Example register_with_one_failure :
  trace (registerCommands
           {| now := 0; pathJoin := joinSlash; channelOf := fun _ => None;
              threadStart := fun _ _ => None; guildRoles := fun _ => None;
              respondErr := fun _ => None; saveFaultOf := NoFault; openErr := None;
              sendErr := None; dbFault := None;
              createErr := fun name => if str_eqb name (bytes "daily")
                                       then Some (bytes "rate limited") else None |}
           (bytes "app") (bytes "guild") Samples.freshWorld)
  = [CommandCreated (bytes "app") (bytes "guild") (bytes "test");
     Logged (WithError (bytes "could not create command 'daily': ")
                       (ApiFailure (bytes "rate limited")));
     CommandCreated (bytes "app") (bytes "guild") (bytes "edit_daily")].
Proof. vm_compute. reflexivity. Qed.

Lemma daily_frame (env : Env) (i : Interaction) (pg : GoParser) (w w' : World) (st : status) :
  handleDaily env i pg w = (w', st) ->
  (exists added, trace w' = trace w ++ added) /\ db w' = db w.
Proof.
  intro H. unfold handleDaily in H.
  repeat match type of H with
         | context [match ?x with _ => _ end] => destruct x eqn:?
         end;
    inversion H; subst; clear H;
    unfold respondError, respond, emit; cbn [trace db files];
    (split; [|reflexivity]);
    first [ exists []; rewrite app_nil_r; reflexivity
          | rewrite <- ?app_assoc; eexists; reflexivity ].
Qed.

Lemma edit_frame (env : Env) (i : Interaction) (w w' : World) (st : status) :
  handleEditDaily env i w = (w', st) ->
  (exists added, trace w' = trace w ++ added) /\ db w' = db w /\ files w' = files w.
Proof.
  intro H. unfold handleEditDaily in H.
  repeat match type of H with
         | context [match ?x with _ => _ end] => destruct x eqn:?
         end;
    inversion H; subst; clear H;
    unfold respondError, respond, emit; cbn [trace db files];
    (split; [|split; reflexivity]);
    first [ exists []; rewrite app_nil_r; reflexivity
          | rewrite <- ?app_assoc; eexists; reflexivity ].
Qed.

Lemma submit_frame (env : Env) (i : Interaction) (w w' : World) (st : status) :
  handleModalSubmit env i w = (w', st) ->
  (exists added, trace w' = trace w ++ added) /\ files w' = files w.
Proof.
  intro H. unfold handleModalSubmit in H. cbv zeta in H.
  destruct (respondErr env (Message (Plain (bytes "Saving updated time")) true));
    repeat match type of H with
           | context [match ?x with _ => _ end] => destruct x eqn:?
           end;
    inversion H; subst; clear H;
    unfold respondError, respond, emit; cbn [trace db files];
    (split; [|reflexivity]);
    rewrite <- ?app_assoc; eexists; reflexivity.
Qed.

(** X23: a handler only adds to what has happened, and each command
    keeps to its own part of the state: the events before a call are a
    prefix of the events after it; only a form submission can change
    the settings; only the daily command can change the files. *)
Theorem handlers_keep_to_their_state
        (pg : GoParser) (env : Env) (i : Interaction) (w w' : World) (st : status) :
  commandHandler pg env i w = (w', st) ->
  (exists added, trace w' = trace w ++ added)
  /\ ((forall cid comps, Data i <> ModalSubmit cid comps) -> db w' = db w)
  /\ (Data i <> ApplicationCommand (bytes "daily") -> files w' = files w).
Proof.
  intro H. unfold commandHandler in H.
  destruct (Data i) as [name|cid comps|] eqn:Ed.
  - destruct (str_eqb name (bytes "test")) eqn:E1.
    { inversion H; subst; clear H. unfold respond, emit. cbn [trace db files].
      split; [eexists; reflexivity|]. split; reflexivity. }
    destruct (str_eqb name (bytes "daily")) eqn:E2.
    { destruct (daily_frame _ _ _ _ _ _ H) as [Ht Hd].
      split; [exact Ht|]. split; [intros _; exact Hd|].
      intro Hne. exfalso. apply Hne. apply RepoFacts.str_eqb_eq in E2. subst. reflexivity. }
    destruct (str_eqb name (bytes "edit_daily")) eqn:E3.
    { destruct (edit_frame _ _ _ _ _ H) as (Ht & Hd & Hf).
      split; [exact Ht|]. split; intros _; assumption. }
    inversion H; subst; clear H. unfold emit. cbn [trace db files].
    split; [eexists; reflexivity|]. split; reflexivity.
  - destruct (submit_frame env i w w' st H) as (Ht & Hf).
    split; [exact Ht|]. split; [|intros _; exact Hf].
    intro Hne. exfalso. exact (Hne cid comps eq_refl).
  - inversion H; subst; clear H.
    split; [exists []; rewrite app_nil_r; reflexivity|]. split; reflexivity.
Qed.

Lemma handlers_keep_to_their_state_witness :
  db (fst (commandHandler Samples.loadedParser Samples.calmEnv
             (Samples.commandOf (bytes "daily") Samples.alice) Samples.freshWorld))
  = db Samples.freshWorld
  /\ files (fst (commandHandler Samples.loadedParser Samples.calmEnv
                   (Samples.commandOf (bytes "edit_daily") Samples.alice) Samples.freshWorld))
     = files Samples.freshWorld.
Proof.
  split.
  - destruct (handlers_keep_to_their_state Samples.loadedParser Samples.calmEnv
                (Samples.commandOf (bytes "daily") Samples.alice) Samples.freshWorld
                _ _ (surjective_pairing _)) as (_ & Hd & _).
    apply Hd. intros cid comps. discriminate.
  - destruct (handlers_keep_to_their_state Samples.loadedParser Samples.calmEnv
                (Samples.commandOf (bytes "edit_daily") Samples.alice) Samples.freshWorld
                _ _ (surjective_pairing _)) as (_ & _ & Hf).
    apply Hf. discriminate.
Defined.

(** X24: loading the configuration never fails, with or without a
    .env file, and it cannot tell a token that is not set from one set
    to the empty string: the token of the configuration is empty in
    exactly these two cases. *)
Theorem load_config_token (dotenv : Config.environ -> Config.environ * option str)
        (env : Config.environ) :
  snd (snd (Config.LoadConfig dotenv env)) = None
  /\ fst (fst (Config.LoadConfig dotenv env)) = fst (dotenv env)
  /\ (Config.BotToken (fst (snd (Config.LoadConfig dotenv env))) = []
      <-> fst (dotenv env) (bytes "DISCORD_TOKEN") = None
          \/ fst (dotenv env) (bytes "DISCORD_TOKEN") = Some []).
Proof.
  unfold Config.LoadConfig. destruct (dotenv env) as [env' err]. cbn [fst snd Config.BotToken].
  split; [reflexivity|]. split; [reflexivity|].
  unfold Config.getEnv. destruct (env' (bytes "DISCORD_TOKEN")) as [v|].
  - split.
    + intros ->. right. reflexivity.
    + intros [H|H]; [discriminate | inversion H; reflexivity].
  - split; [intros _; left; reflexivity | reflexivity].
Qed.
